(** * Resource pricing, account cache and token keys of the wallet

    A shallow embedding of the pricing stores (PowerUp and REX), of the
    account cache ([loadAccount] / [storeAccount]) and of [makeTokenKey],
    together with the properties the specification states about them.

    Numbers.  A JavaScript [Number] is an IEEE-754 double.  The module
    [Exact] embeds the pricing stores over the real numbers: every
    arithmetic operation is the exact one, [Math.exp] is the exponential,
    [Math.pow] the real power.  The module [Binary64] embeds [powerupPrice]
    a second time over the primitive binary64 floats, where [+ - * /] round
    as they do in JavaScript. *)

From Stdlib Require Import ZArith Reals Lra Lia Bool Ascii String List.
From Stdlib Require Import Floats.
From stdpp Require Import gmap strings.

(** ** Assets, shared by both number models *)

(** An [Asset] of the chain library: an integer count of indivisible units
    and the precision of its symbol; [Asset.value] is [units / 10^precision]. *)
Record Asset := mkAsset { units : Z; precision : nat }.

(** [Asset.fromUnits(n, '4,EOS')] for an integer [n], and
    [Asset.from(0, '4,EOS')].  A price is built from [Math.ceil(x)]; the
    models below take the ceiling as an integer right away. *)
Definition Asset_fromUnits (n : Z) : Asset := mkAsset n 4.
Definition Asset_zero : Asset := mkAsset 0 4.

(** * Exact arithmetic model *)
Module Exact.
Local Open Scope R_scope.

(** ** The [Math] functions the stores call *)

Definition Math_floor (x : R) : R := IZR (Zfloor x).
Definition Math_min (x y : R) : R := Rmin x y.
Definition Math_max (x y : R) : R := Rmax x y.
Definition Math_exp (x : R) : R := exp x.

(** [Math.pow(x, y)]: [1] for [y = 0], [0] for [x = 0 < y], the real power
    for [0 < x].  (For [x < 0], and for [x = 0 > y], the double is [NaN] or
    [Infinity]; no theorem below evaluates it there.) *)
Definition Math_pow (x y : R) : R :=
  if Req_dec_T y 0 then 1
  else if Req_dec_T x 0 then 0
  else Rpower x y.

(** Truthiness of a number in a condition: everything but zero. *)
Definition truthy (x : R) : bool := if Req_dec_T x 0 then false else true.

Definition Asset_value (a : Asset) : R := IZR (units a) / 10 ^ precision a.

(** ** On-chain rows *)

(** The [cpu] resource of the [powup.state] row. *)
Record PowerUpStateResource := mkResource {
  weight : Z;
  weight_ratio : Z;
  utilization : Z;
  adjusted_utilization : Z;
  min_price : Asset;
  max_price : Asset;
  exponent : R;
  decay_secs : Z;
  utilization_timestamp : Z
}.

Record PowerUpState := mkPowerUpState { cpu : PowerUpStateResource }.

(** The [rexpool] row, with the fields the stores read. *)
Record REXState := mkREXState {
  total_lent : Asset;
  total_unlent : Asset;
  total_rent : Asset;
  total_lendable : Asset
}.

(** ** Time constants *)

Definition mspb : R := 200.
Definition bps : R := 2.
Definition bpd : R := bps * 60 * 60 * 24.
Definition mspd : R := mspb * bpd.

(** ** Derived stores *)

Definition powerupCapacity (st : option PowerUpState) : R :=
  match st with
  | Some s => IZR (utilization (cpu s)) / IZR (weight (cpu s))
  | None => 0
  end.

Definition resourcesShiftedREXTarget : R := 10 ^ 13.

Definition resourcesShifted (st : option PowerUpState) : R :=
  match st with
  | Some s => IZR (weight_ratio (cpu s)) / resourcesShiftedREXTarget
  | None => 0
  end.

(** ** [powerupPrice2] *)

(** The closure [price_integral_delta] of [powerupPrice2]; the variables it
    captures are its first four arguments. *)
Definition price_integral_delta (min_price max_price exponent weight : R)
    (start_utilization end_utilization : R) : R :=
  let coefficient := (max_price - min_price) / exponent in
  let start_u := start_utilization / weight in
  let end_u := end_utilization / weight in
  min_price * end_u - min_price * start_u
    + coefficient * Math_pow end_u exponent
    - coefficient * Math_pow start_u exponent.

(** The closure [price_function] of [powerupPrice2]. *)
Definition price_function (min_price max_price exponent weight : R)
    (utilization : R) : R :=
  let price := min_price in
  let new_exponent := exponent - 1 in
  if Rle_dec new_exponent 0 then max_price
  else price + (max_price - min_price) * Math_pow (utilization / weight) new_exponent.

(** The block "If utilization is less than adjusted, calculate real time
    value" of [powerupPrice2]: the value of [adjusted_utilization] after it.
    [date_now] is [Date.now()], in milliseconds. *)
Definition adjust_utilization2 (c : PowerUpStateResource) (date_now : Z) : R :=
  let adjusted_utilization := IZR (adjusted_utilization c) in
  let decay_secs := IZR (decay_secs c) in
  let utilization := IZR (utilization c) in
  let utilization_timestamp := IZR (utilization_timestamp c) in
  if Rlt_dec utilization adjusted_utilization then
    let now := Math_floor (IZR date_now / 1000) in
    let diff := adjusted_utilization - utilization in
    let delta := Math_floor (diff * Math_exp (- (now - utilization_timestamp) / decay_secs)) in
    let delta := Math_min (Math_max delta 0) diff in
    utilization + delta
  else adjusted_utilization.

(** The value of [fee] at the end of [powerupPrice2], for a defined state. *)
Definition powerupFee2 (msToRent : R) (c : PowerUpStateResource)
    (resourcesShifted : R) (date_now : Z) : R :=
  let exponent := exponent c in
  let max_price := Asset_value (max_price c) in
  let min_price := Asset_value (min_price c) in
  let utilization := IZR (utilization c) in
  let weight := IZR (weight c) in
  let mspdAvailable := mspd * (1 - resourcesShifted / 100) in
  let percentToRent := msToRent / mspdAvailable in
  let utilization_increase := weight * percentToRent in
  let adjusted_utilization := adjust_utilization2 c date_now in
  let fee := 0 in
  let start_utilization := utilization in
  let end_utilization := start_utilization + utilization_increase in
  let '(fee, start_utilization) :=
    if Rlt_dec start_utilization adjusted_utilization then
      (fee + price_function min_price max_price exponent weight adjusted_utilization
               * Math_min utilization_increase (adjusted_utilization - start_utilization)
               / weight,
       adjusted_utilization)
    else (fee, start_utilization) in
  let fee :=
    if Rlt_dec start_utilization end_utilization then
      fee + price_integral_delta min_price max_price exponent weight
              start_utilization end_utilization
    else fee in
  fee.

Definition powerupPrice2 (msToRent : R) (st : option PowerUpState)
    (resourcesShifted : R) (date_now : Z) : Asset :=
  match st with
  | Some s =>
      if truthy msToRent && truthy resourcesShifted then
        Asset_fromUnits (Zceil (powerupFee2 msToRent (cpu s) resourcesShifted date_now * 10000))
      else Asset_zero
  | None => Asset_zero
  end.

(** ** [powerupPrice] *)

(** [utilizationBefore] after the decay block of [powerupPrice]. *)
Definition utilizationBefore (c : PowerUpStateResource) (date_now : Z) : R :=
  let utilization := IZR (utilization c) in
  let adjusted_utilization := IZR (adjusted_utilization c) in
  let weight := IZR (weight c) in
  let utilizationBefore := Math_max utilization adjusted_utilization / weight in
  if Rlt_dec utilization adjusted_utilization then
    let utilizationDiff := adjusted_utilization - utilization in
    let now := IZR date_now / 1000 in
    let then_ := IZR (utilization_timestamp c) in
    let decay := IZR (decay_secs c) in
    let utilizationDelta := utilizationDiff * Math_exp (- (now - then_) / decay) in
    let utilizationDelta := Math_min (Math_max utilizationDelta 0) utilizationDiff in
    (utilization + utilizationDelta) / weight
  else utilizationBefore.

(** The value of [price] in [powerupPrice], before [Math.ceil]. *)
Definition powerupFee (msToRent : R) (c : PowerUpStateResource)
    (resourcesShifted : R) (date_now : Z) : R :=
  let exp := exponent c in
  let min := IZR (units (min_price c)) in
  let max := IZR (units (max_price c)) in
  let coefficient := (max - min) / exp in
  let mspdAvailable := mspd * (1 - resourcesShifted / 100) in
  let percentToRent := msToRent / mspdAvailable in
  let utilizationBefore := utilizationBefore c date_now in
  let utilizationAfter := utilizationBefore + percentToRent in
  min * (utilizationAfter - utilizationBefore)
    + coefficient * (Math_pow utilizationAfter exp - Math_pow utilizationBefore exp).

Definition powerupPrice (msToRent : R) (st : option PowerUpState)
    (resourcesShifted : R) (date_now : Z) : Asset :=
  match st with
  | Some s =>
      if truthy resourcesShifted then
        Asset_fromUnits (Zceil (powerupFee msToRent (cpu s) resourcesShifted date_now))
      else Asset_fromUnits 0
  | None => Asset_fromUnits 0
  end.

(** ** [rexCapacity] and [rexPrice] *)

Definition rexCapacity (st : option REXState) : R :=
  match st with
  | Some s => IZR (units (total_lent s)) / IZR (units (total_lendable s))
  | None => 0
  end.

Definition rexPrice (msToRent sampledCpuCost : R) (st : option REXState)
    (resourcesShifted : R) : R :=
  match st with
  | Some s =>
      if truthy msToRent && truthy sampledCpuCost && truthy resourcesShifted then
        let totalRent := total_rent s in
        let totalUnlent := total_unlent s in
        let tokens := 1 in
        let msPerToken :=
          tokens / (Asset_value totalRent / Asset_value totalUnlent)
            * sampledCpuCost * (resourcesShifted / 100) in
        tokens / msPerToken * msToRent
      else 0
  | None => 0
  end.

End Exact.

(** * Binary64 model of [powerupPrice] *)
Module Binary64.
Local Open Scope float_scope.

(** [Number(x)] for a 64-bit integer of the chain library: the nearest
    double. *)
Definition Number_of_Z (z : Z) : float :=
  match z with
  | Z0 => 0
  | Zpos _ => of_uint63 (Uint63.of_Z z)
  | Zneg p => - of_uint63 (Uint63.of_Z (Zpos p))
  end.

(** Truthiness of a number in a condition: everything but [0], [-0] and
    [NaN]. *)
Definition truthy (x : float) : bool := negb (is_zero x || is_nan x).

(** [Math.max] and [Math.min]: [NaN] as soon as one argument is. *)
Definition Math_max (x y : float) : float :=
  if is_nan x || is_nan y then nan else if x <? y then y else x.
Definition Math_min (x y : float) : float :=
  if is_nan x || is_nan y then nan else if y <? x then y else x.

(** [Asset.fromUnits(Math.ceil(x), '4,EOS')]: the least integer not below
    [x] as the unit count; no asset for [NaN] and the infinities, which the
    integer type of the chain library rejects. *)
Definition ceil_units (x : float) : option Z :=
  match Prim2SF x with
  | S754_zero _ => Some 0%Z
  | S754_finite s m e =>
      let q := (if (0 <=? e)%Z then Z.pos m * 2 ^ e
                else if s then Z.pos m / 2 ^ (- e)
                else - ((- Z.pos m) / 2 ^ (- e)))%Z in
      Some (if s then (- q)%Z else q)
  | S754_infinity _ | S754_nan => None
  end.

Definition Asset_fromUnits_ceil (x : float) : option Asset :=
  option_map Asset_fromUnits (ceil_units x).

(** The [cpu] resource of the [powup.state] row. *)
Record PowerUpStateResource := mkResource {
  weight : Z;
  weight_ratio : Z;
  utilization : Z;
  adjusted_utilization : Z;
  min_price : Asset;
  max_price : Asset;
  exponent : float;
  decay_secs : Z;
  utilization_timestamp : Z
}.

Record PowerUpState := mkPowerUpState { cpu : PowerUpStateResource }.

Definition mspb : float := 200.
Definition bps : float := 2.
Definition bpd : float := bps * 60 * 60 * 24.
Definition mspd : float := mspb * bpd.

Section WithMath.
(** [Math.exp] and [Math.pow] are approximated by the engine; the model
    takes them as given. *)
Variable Math_exp : float -> float.
Variable Math_pow : float -> float -> float.

Definition utilizationBefore (c : PowerUpStateResource) (date_now : Z) : float :=
  let utilizationBefore :=
    Math_max (Number_of_Z (utilization c)) (Number_of_Z (adjusted_utilization c))
      / Number_of_Z (weight c) in
  if Number_of_Z (utilization c) <? Number_of_Z (adjusted_utilization c) then
    let utilizationDiff := Number_of_Z (adjusted_utilization c) - Number_of_Z (utilization c) in
    let now := Number_of_Z date_now / 1000 in
    let then_ := Number_of_Z (utilization_timestamp c) in
    let decay := Number_of_Z (decay_secs c) in
    let utilizationDelta := utilizationDiff * Math_exp (- (now - then_) / decay) in
    let utilizationDelta := Math_min (Math_max utilizationDelta 0) utilizationDiff in
    (Number_of_Z (utilization c) + utilizationDelta) / Number_of_Z (weight c)
  else utilizationBefore.

(** The value of [price] in [powerupPrice], before [Math.ceil]. *)
Definition powerupFee (msToRent : float) (c : PowerUpStateResource)
    (resourcesShifted : float) (date_now : Z) : float :=
  let exp := exponent c in
  let min := Number_of_Z (units (min_price c)) in
  let max := Number_of_Z (units (max_price c)) in
  let coefficient := (max - min) / exp in
  let mspdAvailable := mspd * (1 - resourcesShifted / 100) in
  let percentToRent := msToRent / mspdAvailable in
  let utilizationBefore := utilizationBefore c date_now in
  let utilizationAfter := utilizationBefore + percentToRent in
  min * (utilizationAfter - utilizationBefore)
    + coefficient * (Math_pow utilizationAfter exp - Math_pow utilizationBefore exp).

(** [None] stands for the exception of [Asset.fromUnits]. *)
Definition powerupPrice (msToRent : float) (st : option PowerUpState)
    (resourcesShifted : float) (date_now : Z) : option Asset :=
  match st with
  | Some s =>
      if truthy resourcesShifted then
        Asset_fromUnits_ceil (powerupFee msToRent (cpu s) resourcesShifted date_now)
      else Some (Asset_fromUnits 0)
  | None => Some (Asset_fromUnits 0)
  end.
End WithMath.

(** The real number a double stands for (zero for [NaN] and infinities). *)
Definition B2R (x : float) : R :=
  match Prim2SF x with
  | S754_finite s m e => (IZR (if s then Z.neg m else Z.pos m) * powerRZ 2 e)%R
  | _ => 0%R
  end.

(** The same row in the exact model. *)
Definition exact_resource (c : PowerUpStateResource) : Exact.PowerUpStateResource :=
  Exact.mkResource (weight c) (weight_ratio c) (utilization c) (adjusted_utilization c)
    (min_price c) (max_price c) (B2R (exponent c)) (decay_secs c) (utilization_timestamp c).

End Binary64.

(** * The account cache *)
Module AccountCache.
Local Open Scope Z_scope.

(** ** Serialized values *)

(** The plain values [Serializer.objectify] produces and the cache stores. *)
#[warnings="-register-all"]
Inductive Json :=
  | JUndefined
  | JNull
  | JBool (b : bool)
  | JNumber (z : Z)
  | JString (s : string)
  | JObject (fields : gmap string Json).

(** Truthiness in a condition. *)
Definition truthy (j : Json) : bool :=
  match j with
  | JUndefined | JNull => false
  | JBool b => b
  | JNumber z => negb (z =? 0)
  | JString s => negb (String.eqb s "")
  | JObject _ => true
  end.

(** [j.k] for a value [j] that is not [null] or [undefined]. *)
Definition get_prop (j : Json) (k : string) : Json :=
  match j with
  | JObject fields => default JUndefined (fields !! k)
  | _ => JUndefined
  end.

(** [j.k = v]; on a primitive the assignment throws (module code is
    strict), which [None] stands for. *)
Definition set_prop (j : Json) (k : string) (v : Json) : option Json :=
  match j with
  | JObject fields => Some (JObject (<[k := v]> fields))
  | _ => None
  end.

(** ** The chain library *)

(** What the cache uses of the chain library: the account object, its
    name as a string, [Serializer.objectify] and
    [API.v1.AccountObject.from], which throws ([None]) on a value that is
    not a serialized account. *)
Class ChainLibrary := {
  AccountObject : Type;
  account_name : AccountObject -> string;
  objectify : AccountObject -> Json;
  AccountObject_from : Json -> option AccountObject
}.

(** The laws of the library the round trip relies on: decoding undoes
    [objectify], and a serialized [voter_info] carries its two vote weights
    as non-empty strings. *)
Class ChainLibraryLaws (L : ChainLibrary) : Prop := {
  from_objectify : forall a, AccountObject_from (objectify a) = Some a;
  objectify_weights : forall a,
    truthy (get_prop (objectify a) "voter_info") = true ->
    truthy (get_prop (get_prop (objectify a) "voter_info") "last_vote_weight") = true /\
    truthy (get_prop (get_prop (objectify a) "voter_info") "proxied_vote_weight") = true
}.

Section Cache.
Context {L : ChainLibrary}.

(** ** Rows, responses, the world *)

(** A row of the [account-cache] store; [updated] is the time of the
    [Date], in milliseconds. *)
Record Row := mkRow { account : Json; updated : Z }.

Record AccountResponse := mkResponse {
  response_account : option AccountObject;
  stale : bool
}.

(** The store, the clock, and the node: what [get_account] answers
    ([None] for a rejected request) and how long the answer takes. *)
Record World := mkWorld {
  db : gmap string Row;
  clock : Z;
  node : string -> string -> option AccountObject;
  node_delay : Z
}.

(** What a caller can observe, in order. *)
Inductive Event :=
  | EGet (key : string)
  | EPut (key : string) (row : Row)
  | EFetch (chainId name : string)
  | ECallback (v : AccountResponse).

(** ** Asynchronous code: state, trace and rejection *)

Definition M (A : Type) : Type := World -> list Event * World * option A.

Definition ret {A} (a : A) : M A := fun w => ([], w, Some a).

Definition bind {A B} (m : M A) (k : A -> M B) : M B :=
  fun w =>
    match m w with
    | (t1, w1, Some a) =>
        match k a w1 with
        | (t2, w2, r) => (t1 ++ t2, w2, r)
        end
    | (t1, w1, None) => (t1, w1, None)
    end.

Notation "'let!' x ':=' m 'in' k" := (bind m (fun x => k))
  (at level 10, x name, m at level 100, k at level 200).
Notation "'do!' m 'in' k" := (bind m (fun _ => k))
  (at level 10, m at level 100, k at level 200).

Definition throw {A} : M A := fun w => ([], w, None).

Definition lift_option {A} (o : option A) : M A :=
  match o with Some a => ret a | None => throw end.

Definition db_get (key : string) : M (option Row) :=
  fun w => ([EGet key], w, Some (db w !! key)).

Definition db_put (row : Row) (key : string) : M unit :=
  fun w => ([EPut key row],
            mkWorld (<[key := row]> (db w)) (clock w) (node w) (node_delay w),
            Some tt).

Definition Date_now : M Z := fun w => ([], w, Some (clock w)).

Definition get_account (chainId name : string) : M AccountObject :=
  fun w => ([EFetch chainId name],
            mkWorld (db w) (clock w + node_delay w) (node w) (node_delay w),
            node w chainId name).

Definition callback (v : AccountResponse) : M unit :=
  fun w => ([ECallback v], w, Some tt).

(** ** The cache *)

(** How old a cached account is before we update it, in milliseconds. *)
Definition maxAge : Z := 60 * 1000.

Definition accountKey (name chainId : string) : string :=
  chainId +:+ "-" +:+ name.

Definition storeAccount (account : AccountObject) (chainId : string) : M unit :=
  let! now := Date_now in
  db_put (mkRow (objectify account) now) (accountKey (account_name account) chainId).

(** The repair of [voter_info] inside [loadAccount]. *)
Definition fix_weight (voter_info : Json) (field : string) : option Json :=
  if negb (truthy (get_prop voter_info field))
  then set_prop voter_info field (JString "0")
  else Some voter_info.

Definition fix_voter_info (account : Json) : option Json :=
  if truthy account && truthy (get_prop account "voter_info") then
    match fix_weight (get_prop account "voter_info") "last_vote_weight" with
    | Some vi1 =>
        match fix_weight vi1 "proxied_vote_weight" with
        | Some vi2 => set_prop account "voter_info" vi2
        | None => None
        end
    | None => None
    end
  else Some account.

Definition loadAccount (name chainId : string) (refresh : bool) : M unit :=
  let key := accountKey name chainId in
  let! row := db_get key in
  let! stale :=
    match row with
    | Some row =>
        let! now := Date_now in
        let age := now - updated row in
        let stale := age >? maxAge in
        let! fixed := lift_option (fix_voter_info (account row)) in
        let! decoded := lift_option (AccountObject_from fixed) in
        do! callback (mkResponse (Some decoded) stale) in
        ret stale
    | None => ret true
    end in
  if stale || refresh then
    let! account := get_account chainId name in
    do! storeAccount account chainId in
    callback (mkResponse (Some account) false)
  else ret tt.

(** The trace of a run. *)
Definition trace {A} (m : M A) (w : World) : list Event := fst (fst (m w)).
Definition final {A} (m : M A) (w : World) : World := snd (fst (m w)).
Definition outcome {A} (m : M A) (w : World) : option A := snd (m w).

(** Was a request sent to the node? *)
Definition is_fetch (e : Event) : bool :=
  match e with EFetch _ _ => true | _ => false end.
Definition fetches (t : list Event) : list Event := filter (fun e => is_fetch e = true) t.

End Cache.

End AccountCache.

(** * Stores built on the account cache *)
Module AccountProvider.
Import AccountCache.

Section Provider.
Context {L : ChainLibrary}.

(** A value of the store of [getAccount]: an [AccountResponse] with its
    optional [error] field, of which only the presence is kept. *)
Record StoreValue := mkValue {
  value_account : option AccountObject;
  value_stale : bool;
  value_error : bool
}.

(** [writable<AccountResponse>({stale: true})]. *)
Definition initial_value : StoreValue := mkValue None true false.

(** [store.set(v)] for a response of [loadAccount]. *)
Definition store_set (v : AccountResponse) : StoreValue :=
  mkValue (response_account v) (stale v) false.

(** [store.update((account) => ({...account, error}))]. *)
Definition store_update_error (v : StoreValue) : StoreValue :=
  mkValue (value_account v) (value_stale v) true.

(** The values the store takes while the events of a run happen, oldest
    first, starting from the value [v]. *)
Fixpoint store_history (v : StoreValue) (t : list Event) : list StoreValue :=
  match t with
  | [] => []
  | ECallback r :: rest => store_set r :: store_history (store_set r) rest
  | _ :: rest => store_history v rest
  end.

(** [getAccount(name, chainId, refresh)]: the values the returned store
    holds, oldest first; the handler of [catch] runs when the run of
    [loadAccount] is rejected, after everything the run has done. *)
Definition getAccount (name chainId : string) (refresh : bool) (w : World) : list StoreValue :=
  let '(t, _, result) := loadAccount name chainId refresh w in
  let values := initial_value :: store_history initial_value t in
  match result with
  | Some _ => values
  | None => values ++ [store_update_error (List.last values initial_value)]
  end.

(** The value a subscriber sees in the end. *)
Definition getAccount_final (name chainId : string) (refresh : bool) (w : World) : StoreValue :=
  List.last (getAccount name chainId refresh w) initial_value.

End Provider.

End AccountProvider.

(** * Token keys *)
Module TokenKey.
Local Open Scope string_scope.

(** The parameters of a key, each as the string [String(...)] gives. *)
Record TokenKeyParams := mkParams {
  chainId : string;
  contract : string;
  name : string
}.

(** [toLowerCase] on the letters [A]-[Z]; every other character is kept. *)
Definition lower_ascii (c : ascii) : ascii :=
  let n := N_of_ascii c in
  if ((65 <=? n) && (n <=? 90))%N then ascii_of_N (n + 32) else c.

Fixpoint toLowerCase (s : string) : string :=
  match s with
  | EmptyString => EmptyString
  | String c rest => String (lower_ascii c) (toLowerCase rest)
  end.

(** [Array.prototype.join]. *)
Fixpoint join (sep : string) (parts : list string) : string :=
  match parts with
  | [] => ""
  | [p] => p
  | p :: rest => p +:+ sep +:+ join sep rest
  end.

Definition makeTokenKey (token : TokenKeyParams) : string :=
  toLowerCase (join "-" [chainId token; contract token; name token]).

(** Does the string contain the separator? *)
Fixpoint has_dash (s : string) : bool :=
  match s with
  | EmptyString => false
  | String c rest => Ascii.eqb c "-" || has_dash rest
  end.

(** Two parameter sets that differ in letter case at most. *)
Definition same_up_to_case (t1 t2 : TokenKeyParams) : Prop :=
  toLowerCase (chainId t1) = toLowerCase (chainId t2) /\
  toLowerCase (contract t1) = toLowerCase (contract t2) /\
  toLowerCase (name t1) = toLowerCase (name t2).

End TokenKey.

(** * The token store *)
Module TokenStore.

(** What the store uses of [Asset.Symbol]: [Asset.Symbol.from] on the
    string made of a precision and a symbol code, which throws ([None]) on
    what is not a symbol; [equals]; and the code, [name]. *)
Class SymbolLibrary := {
  Symbol : Type;
  Symbol_from : Z -> string -> option Symbol;
  Symbol_equals : Symbol -> Symbol -> bool;
  Symbol_name : Symbol -> string
}.

Section Store.
Context {S : SymbolLibrary}.

Record Token := mkToken {
  key : string;
  chainId : string;
  contract : string;
  symbol : Symbol;
  name : string;
  price : option float;
  logo : option string
}.

(** The fields of a chain configuration the store reads. *)
Record ChainConfig := mkChainConfig {
  id : string;
  config_chainId : string;
  coreTokenContract : string;
  coreTokenSymbol : Symbol
}.

(** An entry of the token list: [supply] may be missing, and the symbol
    code may be empty. *)
Record TokenSupply := mkSupply { supply_precision : Z }.

Record TokenEntry := mkEntry {
  entry_chain : string;
  entry_account : string;
  entry_symbol : string;
  entry_supply : option TokenSupply;
  metadata_name : string;
  metadata_logo : option string
}.

(** The configuration of the chains and the token list, both imported by
    the store. *)
Class TokenData := {
  chainConfig : string -> ChainConfig;
  AntelopeTokens : list TokenEntry
}.
Context {D : TokenData}.

Definition token_key (chainId contract name : string) : string :=
  TokenKey.makeTokenKey (TokenKey.mkParams chainId contract name).

Definition systemTokenKey (activeBlockchain : option ChainConfig) : string :=
  match activeBlockchain with
  | Some chain =>
      token_key (config_chainId chain) (coreTokenContract chain)
        (Symbol_name (coreTokenSymbol chain))
  | None => ""
  end.

Definition createTokenFromChainId (chainId : string) (price : option float) : Token :=
  let chain := chainConfig chainId in
  let name := Symbol_name (coreTokenSymbol chain) in
  mkToken (token_key chainId (coreTokenContract chain) name)
    chainId (coreTokenContract chain) (coreTokenSymbol chain) name price
    (Some ("https://www.bloks.io/img/chains/" +:+ TokenKey.toLowerCase name +:+ ".png")).

Definition systemToken (activeBlockchain : option ChainConfig) : option Token :=
  match activeBlockchain with
  | Some chain => Some (createTokenFromChainId (config_chainId chain) None)
  | None => None
  end.

(** [existing.find((t) => t.key === key)]. *)
Definition getToken (tokens : list Token) (k : string) : option Token :=
  List.find (fun t => String.eqb (key t) k) tokens.

(** The truthiness tests of [loadTokenMetadata] on an entry:
    [t.supply && t.supply.precision && t.symbol]. *)
Definition entry_usable (t : TokenEntry) : option Z :=
  match entry_supply t with
  | Some supply =>
      if negb (supply_precision supply =? 0)%Z && negb (String.eqb (entry_symbol t) "")
      then Some (supply_precision supply)
      else None
  | None => None
  end.

(** The loop of [loadTokenMetadata] over the token list; [None] when
    [Asset.Symbol.from] throws, which ends the function. *)
Fixpoint metadata_records (session_chain : string) (sysToken : Token)
    (entries : list TokenEntry) : option (list Token) :=
  match entries with
  | [] => Some []
  | t :: rest =>
      let chain := chainConfig session_chain in
      if String.eqb (id chain) (entry_chain t) then
        match entry_usable t with
        | Some precision =>
            match Symbol_from precision (entry_symbol t) with
            | Some symbol0 =>
                if Symbol_equals symbol0 (symbol sysToken)
                   && String.eqb (entry_account t) (entry_account t)
                then metadata_records session_chain sysToken rest
                else
                  option_map
                    (cons (mkToken
                             (token_key session_chain (entry_account t) (metadata_name t))
                             session_chain (entry_account t) symbol0 (metadata_name t)
                             None (metadata_logo t)))
                    (metadata_records session_chain sysToken rest)
            | None => None
            end
        | None => metadata_records session_chain sysToken rest
        end
      else metadata_records session_chain sysToken rest
  end.

(** [loadTokenMetadata(session)]: the value given to [tokens.set], if the
    function gets there. *)
Definition loadTokenMetadata (session_chain : string) (activePriceTicker : option float)
    : option (list Token) :=
  let sysToken := createTokenFromChainId session_chain activePriceTicker in
  option_map (cons sysToken) (metadata_records session_chain sysToken AntelopeTokens).

(** [setTokenPrice(token, price)]: the value given to [tokens.set]. *)
Definition setTokenPrice (existing : list Token) (token : Token) (p : float) : list Token :=
  List.filter (fun t => negb (String.eqb (key t) (key token))) existing
    ++ [mkToken (key token) (chainId token) (contract token) (symbol token) (name token)
          (Some p) (logo token)].

End Store.

End TokenStore.

(** * Token balances *)
Module TokenBalances.

Section Balances.
(** An element of the [tokens] array of the response, and the property key
    its [currency] gives. *)
Context {TokensData : Type}.
Variable currency : TokensData -> string.

(** [parseTokens(tokens)]: the own properties of the object it returns.
    Assigning to the key ["__proto__"] of a plain object creates no
    property. *)
Definition parseTokens (tokens : list TokensData) : gmap string TokensData :=
  fold_left
    (fun tokensData token =>
       if String.eqb (currency token) "__proto__" then tokensData
       else <[currency token := token]> tokensData)
    tokens ∅.

End Balances.

End TokenBalances.

(** * Transaction templates *)
Module Request.
Local Open Scope string_scope.

(** The fields of an action the template selection reads, as strings. *)
Record Action := mkAction { account : string; name : string }.

Definition quote_char : ascii := ascii_of_N 34.
Definition backslash : ascii := ascii_of_N 92.

(** A lowercase hexadecimal digit. *)
Definition hex_digit (n : N) : ascii :=
  if (n <? 10)%N then ascii_of_N (48 + n) else ascii_of_N (87 + n).

(** [JSON.stringify] on one character of a string: the short escapes, the
    [\u] escape for the other control characters, the character itself
    otherwise.  Strings are sequences of bytes in UTF-8; the bytes above 127
    belong to characters that are not escaped. *)
Definition escape_char (c : ascii) : string :=
  let n := N_of_ascii c in
  if (n =? 8)%N then String backslash "b"
  else if (n =? 9)%N then String backslash "t"
  else if (n =? 10)%N then String backslash "n"
  else if (n =? 12)%N then String backslash "f"
  else if (n =? 13)%N then String backslash "r"
  else if (n =? 34)%N then String backslash (String quote_char "")
  else if (n =? 92)%N then String backslash (String backslash "")
  else if (n <? 32)%N then
    String backslash
      (String "u" (String "0" (String "0"
         (String (hex_digit (n / 16)) (String (hex_digit (n mod 16)) "")))))
  else String c "".

Fixpoint escape (s : string) : string :=
  match s with
  | EmptyString => ""
  | String c rest => escape_char c +:+ escape rest
  end.

(** [JSON.stringify] on a string. *)
Definition JSON_quote (s : string) : string :=
  String quote_char (escape s +:+ String quote_char "").

(** [JSON.stringify] on an array of strings. *)
Definition JSON_stringify (l : list string) : string :=
  "[" +:+ TokenKey.join "," (List.map JSON_quote l) +:+ "]".

Record Template := mkTemplate { template_name : string; template_actions : list string }.

Definition templates : list Template :=
  [ mkTemplate "newaccount" ["eosio::newaccount"; "eosio::buyrambytes"] ].

(** [currentTemplate]: [None] is [undefined], for no transaction. *)
Definition currentTemplate (currentTransaction : option (list Action)) : option string :=
  match currentTransaction with
  | Some transaction_actions =>
      let actions :=
        List.map (fun action => account action +:+ "::" +:+ name action) transaction_actions in
      let matching :=
        List.find
          (fun template =>
             String.eqb (JSON_stringify (template_actions template)) (JSON_stringify actions))
          templates in
      match matching with
      | Some template => Some (template_name template)
      | None => Some "default"
      end
  | None => None
  end.

End Request.

(** * Properties of the exact arithmetic model *)
Module ExactFacts.
Import Exact.
Local Open Scope R_scope.

(** A [powup.state] resource as the system contract maintains it: a
    positive weight, prices of one symbol, ordered and not negative, a
    positive exponent and decay time, a utilization that is not negative. *)
Record valid_resource (c : PowerUpStateResource) : Prop := mkValid {
  valid_weight : (0 < weight c)%Z;
  valid_utilization : (0 <= utilization c)%Z;
  valid_min_price : (0 <= units (min_price c))%Z;
  valid_max_price : (units (min_price c) <= units (max_price c))%Z;
  valid_precision : precision (min_price c) = precision (max_price c);
  valid_exponent : 0 < exponent c;
  valid_decay : (0 < decay_secs c)%Z
}.

Lemma mspd_eq : mspd = 34560000.
Proof. unfold mspd, mspb, bpd, bps. lra. Qed.

Lemma mspdAvailable_pos s : s < 100 -> 0 < mspd * (1 - s / 100).
Proof. intros Hs. rewrite mspd_eq. lra. Qed.

Lemma truthy_true x : x <> 0 -> truthy x = true.
Proof. intros H. unfold truthy. destruct (Req_dec_T x 0); [contradiction | reflexivity]. Qed.

Lemma truthy_zero : truthy 0 = false.
Proof. unfold truthy. destruct (Req_dec_T 0 0); [reflexivity | contradiction]. Qed.

Lemma truthy_false x : truthy x = false -> x = 0.
Proof. unfold truthy. destruct (Req_dec_T x 0); [auto | discriminate]. Qed.

(** *** [Math.pow] on the non-negative reals *)

Lemma Math_pow_nonneg x y : 0 <= Math_pow x y.
Proof.
  unfold Math_pow.
  destruct (Req_dec_T y 0); [lra |].
  destruct (Req_dec_T x 0); [lra |].
  unfold Rpower. left. apply exp_pos.
Qed.

Lemma Math_pow_le x y e : 0 < e -> 0 <= x <= y -> Math_pow x e <= Math_pow y e.
Proof.
  intros He [Hx Hxy]. unfold Math_pow.
  destruct (Req_dec_T e 0); [lra |].
  destruct (Req_dec_T x 0) as [-> | Hx0]; destruct (Req_dec_T y 0) as [-> | Hy0]; try lra.
  - unfold Rpower. left. apply exp_pos.
  - apply Rle_Rpower_l; lra.
Qed.

Lemma Math_pow_2 x : 0 <= x -> Math_pow x 2 = x * x.
Proof.
  intros Hx. unfold Math_pow.
  destruct (Req_dec_T 2 0); [lra |].
  destruct (Req_dec_T x 0) as [-> | Hx0]; [lra |].
  change 2 with (INR 2). rewrite Rpower_pow by lra. simpl. lra.
Qed.

Lemma clamp_bounds d diff : 0 <= diff -> 0 <= Math_min (Math_max d 0) diff <= diff.
Proof.
  intros Hd. unfold Math_min, Math_max. split.
  - apply Rmin_glb; [apply Rmax_r | exact Hd].
  - apply Rmin_r.
Qed.

Lemma Asset_value_units a : Asset_value a * 10 ^ precision a = IZR (units a).
Proof.
  unfold Asset_value. field. apply pow_nonzero. lra.
Qed.

Lemma Asset_value_nonneg a : (0 <= units a)%Z -> 0 <= Asset_value a.
Proof.
  intros H. unfold Asset_value. apply Rmult_le_pos.
  - apply IZR_le in H. exact H.
  - left. apply Rinv_0_lt_compat. apply pow_lt. lra.
Qed.

Lemma Asset_value_le a b :
  precision a = precision b -> (units a <= units b)%Z -> Asset_value a <= Asset_value b.
Proof.
  intros Hp H. unfold Asset_value. rewrite Hp.
  apply Rmult_le_compat_r.
  - left. apply Rinv_0_lt_compat. apply pow_lt. lra.
  - apply IZR_le. exact H.
Qed.

Lemma Zceil_IZR (z : Z) : Zceil (IZR z) = z.
Proof. apply Zceil_eq. lra. Qed.

(** *** Monotonicity of the fee in the requested duration *)

Section Monotone.
Variable c : PowerUpStateResource.
Variable date_now : Z.
Hypothesis Hvalid : valid_resource c.

Lemma weight_pos : 0 < IZR (weight c).
Proof using Hvalid. apply IZR_lt. apply (valid_weight c Hvalid). Qed.

Lemma utilization_nonneg : 0 <= IZR (utilization c).
Proof using Hvalid. apply IZR_le. apply (valid_utilization c Hvalid). Qed.

Lemma units_prices : 0 <= IZR (units (min_price c)) <= IZR (units (max_price c)).
Proof using Hvalid.
  split; apply IZR_le; [apply (valid_min_price c Hvalid) | apply (valid_max_price c Hvalid)].
Qed.

Lemma value_prices : 0 <= Asset_value (min_price c) <= Asset_value (max_price c).
Proof using Hvalid.
  split.
  - apply Asset_value_nonneg. apply (valid_min_price c Hvalid).
  - apply Asset_value_le; [apply (valid_precision c Hvalid) | apply (valid_max_price c Hvalid)].
Qed.

Lemma utilizationBefore_nonneg : 0 <= utilizationBefore c date_now.
Proof using Hvalid.
  pose proof weight_pos as Hw. pose proof utilization_nonneg as HU.
  unfold utilizationBefore.
  destruct (Rlt_dec _ _) as [Hlt | Hge].
  - apply Rmult_le_pos; [| left; apply Rinv_0_lt_compat; exact Hw].
    pose proof (clamp_bounds
      ((IZR (adjusted_utilization c) - IZR (utilization c)) *
         Math_exp (- (IZR date_now / 1000 - IZR (utilization_timestamp c)) / IZR (decay_secs c)))
      (IZR (adjusted_utilization c) - IZR (utilization c))) as Hc.
    lra.
  - apply Rmult_le_pos; [| left; apply Rinv_0_lt_compat; exact Hw].
    unfold Math_max. pose proof (Rmax_l (IZR (utilization c)) (IZR (adjusted_utilization c))). lra.
Qed.

(** [powerupPrice]: the fee grows with the requested duration. *)
Lemma powerupFee_mono s m1 m2 :
  s < 100 -> 0 <= m1 <= m2 ->
  powerupFee m1 c s date_now <= powerupFee m2 c s date_now.
Proof using Hvalid.
  intros Hs [Hm1 Hm12].
  pose proof (mspdAvailable_pos s Hs) as Hav.
  pose proof utilizationBefore_nonneg as Hub.
  pose proof units_prices as [Hmin Hmax].
  pose proof (valid_exponent c Hvalid) as He.
  unfold powerupFee.
  set (ub := utilizationBefore c date_now) in *.
  set (av := mspd * (1 - s / 100)) in *.
  assert (Hp1 : 0 <= m1 / av) by (apply Rmult_le_pos; [lra | left; apply Rinv_0_lt_compat; lra]).
  assert (Hp12 : m1 / av <= m2 / av).
  { apply Rmult_le_compat_r; [left; apply Rinv_0_lt_compat; lra | lra]. }
  assert (Hpow : Math_pow (ub + m1 / av) (exponent c) <= Math_pow (ub + m2 / av) (exponent c)).
  { apply Math_pow_le; lra. }
  assert (Hco : 0 <= (IZR (units (max_price c)) - IZR (units (min_price c))) / exponent c).
  { apply Rmult_le_pos; [lra | left; apply Rinv_0_lt_compat; lra]. }
  apply Rplus_le_compat.
  - apply Rmult_le_compat_l; lra.
  - apply Rmult_le_compat_l; lra.
Qed.

Lemma powerupFee_zero s : powerupFee 0 c s date_now = 0.
Proof using Type.
  unfold powerupFee.
  replace (0 / (mspd * (1 - s / 100))) with 0 by (unfold Rdiv; ring).
  rewrite Rplus_0_r. ring.
Qed.

Lemma price_function_nonneg u :
  0 <= price_function (Asset_value (min_price c)) (Asset_value (max_price c))
         (exponent c) (IZR (weight c)) u.
Proof using Hvalid.
  pose proof value_prices as [Hmin Hmax].
  unfold price_function.
  destruct (Rle_dec _ _); [lra |].
  pose proof (Math_pow_nonneg (u / IZR (weight c)) (exponent c - 1)) as Hp.
  assert (0 <= (Asset_value (max_price c) - Asset_value (min_price c)) *
                 Math_pow (u / IZR (weight c)) (exponent c - 1))
    by (apply Rmult_le_pos; lra).
  lra.
Qed.

Lemma price_integral_delta_diag s :
  price_integral_delta (Asset_value (min_price c)) (Asset_value (max_price c))
    (exponent c) (IZR (weight c)) s s = 0.
Proof using Type. unfold price_integral_delta. ring. Qed.

Lemma price_integral_delta_mono s e1 e2 :
  0 <= e1 <= e2 ->
  price_integral_delta (Asset_value (min_price c)) (Asset_value (max_price c))
    (exponent c) (IZR (weight c)) s e1
  <= price_integral_delta (Asset_value (min_price c)) (Asset_value (max_price c))
    (exponent c) (IZR (weight c)) s e2.
Proof using Hvalid.
  intros [He1 He12].
  pose proof value_prices as [Hmin Hmax].
  pose proof weight_pos as Hw.
  pose proof (valid_exponent c Hvalid) as He.
  unfold price_integral_delta.
  assert (Hiw : 0 < / IZR (weight c)) by (apply Rinv_0_lt_compat; exact Hw).
  assert (H1 : 0 <= e1 / IZR (weight c)) by (apply Rmult_le_pos; lra).
  assert (H12 : e1 / IZR (weight c) <= e2 / IZR (weight c))
    by (apply Rmult_le_compat_r; lra).
  assert (Hpow : Math_pow (e1 / IZR (weight c)) (exponent c)
                 <= Math_pow (e2 / IZR (weight c)) (exponent c))
    by (apply Math_pow_le; lra).
  assert (Hco : 0 <= (Asset_value (max_price c) - Asset_value (min_price c)) / exponent c).
  { apply Rmult_le_pos; [lra | left; apply Rinv_0_lt_compat; lra]. }
  assert (Ha : Asset_value (min_price c) * (e1 / IZR (weight c))
               <= Asset_value (min_price c) * (e2 / IZR (weight c)))
    by (apply Rmult_le_compat_l; lra).
  assert (Hb : (Asset_value (max_price c) - Asset_value (min_price c)) / exponent c
                 * Math_pow (e1 / IZR (weight c)) (exponent c)
               <= (Asset_value (max_price c) - Asset_value (min_price c)) / exponent c
                 * Math_pow (e2 / IZR (weight c)) (exponent c))
    by (apply Rmult_le_compat_l; lra).
  lra.
Qed.

Lemma price_integral_delta_nonneg s e :
  0 <= s <= e ->
  0 <= price_integral_delta (Asset_value (min_price c)) (Asset_value (max_price c))
         (exponent c) (IZR (weight c)) s e.
Proof using Hvalid.
  intros [Hs Hse]. rewrite <- (price_integral_delta_diag s).
  apply price_integral_delta_mono. lra.
Qed.

(** The decay block never leaves the interval between the utilization and
    the adjusted utilization of the row. *)
Lemma adjust_utilization2_bounds :
  IZR (utilization c) < IZR (adjusted_utilization c) ->
  IZR (utilization c) <= adjust_utilization2 c date_now <= IZR (adjusted_utilization c).
Proof using Type.
  intros Hlt. unfold adjust_utilization2.
  destruct (Rlt_dec _ _) as [_ | Hn]; [| contradiction].
  match goal with
  | |- _ <= _ + Math_min (Math_max ?d 0) ?diff <= _ =>
      pose proof (clamp_bounds d diff) as Hc
  end.
  lra.
Qed.

(** [powerupPrice2]: the fee grows with the requested duration. *)
Lemma powerupFee2_mono s m1 m2 :
  s < 100 -> 0 <= m1 <= m2 ->
  powerupFee2 m1 c s date_now <= powerupFee2 m2 c s date_now.
Proof using Hvalid.
  intros Hs [Hm1 Hm12].
  pose proof (mspdAvailable_pos s Hs) as Hav.
  pose proof weight_pos as Hw.
  pose proof utilization_nonneg as HU.
  unfold powerupFee2.
  set (av := mspd * (1 - s / 100)) in *.
  set (A := adjust_utilization2 c date_now).
  assert (Hiw : 0 < / IZR (weight c)) by (apply Rinv_0_lt_compat; exact Hw).
  assert (Hinc1 : 0 <= IZR (weight c) * (m1 / av)).
  { apply Rmult_le_pos; [lra |]. apply Rmult_le_pos; [lra | left; apply Rinv_0_lt_compat; lra]. }
  assert (Hinc12 : IZR (weight c) * (m1 / av) <= IZR (weight c) * (m2 / av)).
  { apply Rmult_le_compat_l; [lra |].
    apply Rmult_le_compat_r; [left; apply Rinv_0_lt_compat; lra | lra]. }
  set (i1 := IZR (weight c) * (m1 / av)) in *.
  set (i2 := IZR (weight c) * (m2 / av)) in *.
  destruct (Rlt_dec (IZR (utilization c)) A) as [HUA | HUA].
  - (* part of the range lies below the adjusted utilization *)
    assert (Hflat :
      price_function (Asset_value (min_price c)) (Asset_value (max_price c))
        (exponent c) (IZR (weight c)) A * Math_min i1 (A - IZR (utilization c)) / IZR (weight c)
      <= price_function (Asset_value (min_price c)) (Asset_value (max_price c))
        (exponent c) (IZR (weight c)) A * Math_min i2 (A - IZR (utilization c)) / IZR (weight c)).
    { apply Rmult_le_compat_r; [lra |].
      apply Rmult_le_compat_l; [apply price_function_nonneg |].
      unfold Math_min. apply Rle_min_compat_r. exact Hinc12. }
    destruct (Rlt_dec A (IZR (utilization c) + i1)) as [H1 | H1];
      destruct (Rlt_dec A (IZR (utilization c) + i2)) as [H2 | H2].
    + pose proof (price_integral_delta_mono A
        (IZR (utilization c) + i1) (IZR (utilization c) + i2)) as Hm.
      lra.
    + lra.
    + pose proof (price_integral_delta_nonneg A (IZR (utilization c) + i2)) as Hn.
      lra.
    + lra.
  - destruct (Rlt_dec (IZR (utilization c)) (IZR (utilization c) + i1)) as [H1 | H1];
      destruct (Rlt_dec (IZR (utilization c)) (IZR (utilization c) + i2)) as [H2 | H2].
    + pose proof (price_integral_delta_mono (IZR (utilization c))
        (IZR (utilization c) + i1) (IZR (utilization c) + i2)) as Hm.
      lra.
    + lra.
    + pose proof (price_integral_delta_nonneg (IZR (utilization c))
        (IZR (utilization c) + i2)) as Hn.
      lra.
    + lra.
Qed.

Lemma powerupFee2_zero s : powerupFee2 0 c s date_now = 0.
Proof using Type.
  unfold powerupFee2.
  replace (IZR (weight c) * (0 / (mspd * (1 - s / 100)))) with 0 by (unfold Rdiv; ring).
  rewrite Rplus_0_r.
  destruct (Rlt_dec _ _) as [HUA | HUA].
  - destruct (Rlt_dec _ _) as [H | H]; [lra |].
    unfold Math_min. rewrite Rmin_left by lra. unfold Rdiv. ring.
  - destruct (Rlt_dec _ _) as [H | H]; [lra | reflexivity].
Qed.

Lemma powerupFee2_nonneg s m : s < 100 -> 0 <= m -> 0 <= powerupFee2 m c s date_now.
Proof using Hvalid.
  intros Hs Hm. rewrite <- (powerupFee2_zero s). apply powerupFee2_mono; lra.
Qed.

End Monotone.


(** A valid state, a positive shift ratio and two durations for C1. *)
Definition sample_resource : PowerUpStateResource :=
  mkResource 1000000 100000000000000 0 0 (mkAsset 1000000 4) (mkAsset 100000000 4) 2 86400 0.

Lemma sample_resource_valid : valid_resource sample_resource.
Proof. constructor; cbn; try lia; try lra; reflexivity. Qed.


(** *** The two price stores compared *)

Lemma Math_pow_1 x : 0 <= x -> Math_pow x 1 = x.
Proof.
  intros Hx. unfold Math_pow.
  destruct (Req_dec_T 1 0); [lra |].
  destruct (Req_dec_T x 0) as [-> | Hx0]; [reflexivity |].
  apply Rpower_1. lra.
Qed.

(** A row with a decayed surcharge: utilization 0, adjusted utilization 50. *)
Definition surcharged_resource : PowerUpStateResource :=
  mkResource 100 100000000000000 0 50 (mkAsset 0 4) (mkAsset 10000 4) 2 1 0.

Lemma surcharged_adjust2 : adjust_utilization2 surcharged_resource 0 = 50.
Proof.
  unfold adjust_utilization2, surcharged_resource; cbn -[Zfloor].
  destruct (Rlt_dec 0 50) as [_ | H]; [| exfalso; apply H; lra].
  unfold Math_floor, Math_exp, Math_min, Math_max.
  replace (0 / 1000) with 0 by lra.
  rewrite (ZfloorZ 0).
  replace (- (0 - 0) / 1) with 0 by lra.
  rewrite exp_0.
  replace ((50 - 0) * 1) with 50 by lra.
  rewrite (ZfloorZ 50).
  rewrite Rmax_left by lra. rewrite Rmin_left by lra. lra.
Qed.

Lemma surcharged_before : utilizationBefore surcharged_resource 0 = / 2.
Proof.
  unfold utilizationBefore, surcharged_resource; cbn.
  destruct (Rlt_dec 0 50) as [_ | H]; [| exfalso; apply H; lra].
  unfold Math_exp, Math_min, Math_max.
  replace (- (0 / 1000 - 0) / 1) with 0 by lra.
  rewrite exp_0.
  replace ((50 - 0) * 1) with (50 - 0) by lra.
  rewrite Rmax_left by lra. rewrite Rmin_left by lra. lra.
Qed.

Lemma surcharged_price :
  powerupPrice 8640000 (Some (mkPowerUpState surcharged_resource)) 50 0 = Asset_fromUnits 3750.
Proof.
  unfold powerupPrice. rewrite truthy_true by lra.
  f_equal. unfold powerupFee. cbn [cpu]. rewrite surcharged_before.
  cbn [exponent min_price max_price units surcharged_resource].
  rewrite mspd_eq.
  replace (/ 2 + 8640000 / (34560000 * (1 - 50 / 100))) with 1 by lra.
  rewrite !Math_pow_2 by lra.
  apply Zceil_eq. lra.
Qed.

Lemma surcharged_price2 :
  powerupPrice2 8640000 (Some (mkPowerUpState surcharged_resource)) 50 0 = Asset_fromUnits 2500.
Proof.
  unfold powerupPrice2. rewrite !truthy_true by lra. cbn [andb].
  f_equal. unfold powerupFee2. cbn [cpu]. rewrite surcharged_adjust2.
  cbn [exponent min_price max_price units utilization weight surcharged_resource].
  rewrite mspd_eq.
  replace (100 * (8640000 / (34560000 * (1 - 50 / 100)))) with 50 by lra.
  destruct (Rlt_dec 0 50) as [_ | H]; [| exfalso; apply H; lra].
  destruct (Rlt_dec 50 (0 + 50)) as [H | _]; [exfalso; lra |].
  unfold price_function, Asset_value; cbn [units precision].
  destruct (Rle_dec (2 - 1) 0) as [H | _]; [exfalso; lra |].
  replace (2 - 1) with 1 by lra.
  rewrite Math_pow_1 by lra.
  unfold Math_min. rewrite Rmin_left by lra.
  apply Zceil_eq. lra.
Qed.




(** *** The scenario of the specification *)

(** Weight 1,000,000, exponent 2, no utilization; the prices are given by
    their unit counts. *)
Definition scenario_resource (min_units max_units : Z) : PowerUpStateResource :=
  mkResource 1000000 0 0 0 (mkAsset min_units 4) (mkAsset max_units 4) 2 86400 0.

(** C4, as stated, fails: with a shift ratio of 0 both stores take the
    branch of the missing value and return zero, whether the prices 100 and
    10000 are read as unit counts or as token amounts. *)
Lemma scenario_price_zero :
  ~ (0 < units (powerupPrice 1 (Some (mkPowerUpState (scenario_resource 100 10000))) 0 0))%Z /\
  ~ (0 < units (powerupPrice2 1 (Some (mkPowerUpState (scenario_resource 100 10000))) 0 0))%Z /\
  ~ (0 < units (powerupPrice 1
                  (Some (mkPowerUpState (scenario_resource 1000000 100000000))) 0 0))%Z /\
  ~ (0 < units (powerupPrice2 1
                  (Some (mkPowerUpState (scenario_resource 1000000 100000000))) 0 0))%Z.
Proof.
  unfold powerupPrice, powerupPrice2.
  rewrite truthy_zero, andb_false_r. cbn. lia.
Qed.

Lemma scenario_fee_bounds (min_units max_units : Z) (p : R) :
  (0 < min_units <= 1000000)%Z ->
  (min_units <= max_units <= 100000000)%Z ->
  0 < p <= / 17280000 ->
  0 < IZR min_units * p + (IZR max_units - IZR min_units) / 2 * (p * p) <= 1.
Proof.
  intros [Hm0 Hm1] [Hmm HM] [Hp0 Hp1].
  apply IZR_lt in Hm0. apply IZR_le in Hm1, Hmm, HM.
  assert (Hpp : 0 <= p * p <= p * / 17280000).
  { split; [apply Rmult_le_pos; lra | apply Rmult_le_compat_l; lra]. }
  assert (H1 : 0 < IZR min_units * p) by (apply Rmult_lt_0_compat; lra).
  assert (H2 : IZR min_units * p <= 1000000 * / 17280000).
  { apply Rmult_le_compat; lra. }
  assert (H3 : 0 <= (IZR max_units - IZR min_units) / 2 * (p * p)).
  { apply Rmult_le_pos; lra. }
  assert (H4 : (IZR max_units - IZR min_units) / 2 * (p * p)
               <= 50000000 * (/ 17280000 * / 17280000)).
  { apply Rmult_le_compat; lra. }
  lra.
Qed.

Lemma scenario_percent (s : R) :
  0 < s <= 50 -> 0 < 1 / (mspd * (1 - s / 100)) <= / 17280000.
Proof.
  intros [Hs0 Hs1]. rewrite mspd_eq.
  assert (Hav : 17280000 <= 34560000 * (1 - s / 100)) by lra.
  split.
  - apply Rdiv_lt_0_compat; lra.
  - unfold Rdiv. rewrite Rmult_1_l. apply Rinv_le_contravar; lra.
Qed.

(** C4, amended.  For the state of the scenario (weight 1,000,000,
    exponent 2, no utilization, a minimum price of 100 and a maximum price
    of 10000, as unit counts or as token amounts), a request of 1 ms and a
    shift ratio [s] with [0 < s <= 50], both stores return exactly one
    unit, which is more than zero and less than the maximum price. *)
Theorem scenario_price (min_units max_units : Z) (s : R) (date_now : Z) :
  (0 < min_units <= 1000000)%Z ->
  (min_units <= max_units <= 100000000)%Z ->
  (1 < max_units)%Z ->
  0 < s <= 50 ->
  let st := Some (mkPowerUpState (scenario_resource min_units max_units)) in
  units (powerupPrice 1 st s date_now) = 1%Z /\
  units (powerupPrice2 1 st s date_now) = 1%Z /\
  (0 < 1 < units (max_price (scenario_resource min_units max_units)))%Z.
Proof.
  intros Hmin Hmax Hmax1 Hs st. subst st.
  pose proof (scenario_percent s Hs) as Hp.
  assert (Hs0 : s <> 0) by lra.
  split; [| split].
  - unfold powerupPrice. rewrite truthy_true by exact Hs0.
    cbn [units Asset_fromUnits]. apply Zceil_eq.
    unfold powerupFee, utilizationBefore. cbn.
    destruct (Rlt_dec 0 0) as [H | _]; [exfalso; lra |].
    unfold Math_max. rewrite Rmax_left by lra.
    set (p := 1 / (mspd * (1 - s / 100))) in *.
    replace (0 / 1000000 + p) with p by lra.
    replace (0 / 1000000) with 0 by lra.
    rewrite !Math_pow_2 by lra.
    pose proof (scenario_fee_bounds min_units max_units p Hmin Hmax Hp).
    lra.
  - unfold powerupPrice2. rewrite !truthy_true by lra.
    cbn [andb units Asset_fromUnits]. apply Zceil_eq.
    unfold powerupFee2, adjust_utilization2. cbn.
    destruct (Rlt_dec 0 0) as [H | _]; [exfalso; lra |].
    destruct (Rlt_dec 0 0) as [H | _]; [exfalso; lra |].
    set (p := 1 / (mspd * (1 - s / 100))) in *.
    destruct (Rlt_dec 0 (0 + 1000000 * p)) as [_ | H]; [| exfalso; apply H; lra].
    unfold price_integral_delta, Asset_value. cbn [units precision].
    replace ((0 + 1000000 * p) / 1000000) with p by lra.
    replace (0 / 1000000) with 0 by lra.
    rewrite !Math_pow_2 by lra.
    pose proof (scenario_fee_bounds min_units max_units p Hmin Hmax Hp).
    lra.
  - cbn. lia.
Qed.

Lemma scenario_price_witness :
  let st := Some (mkPowerUpState (scenario_resource 100 10000)) in
  units (powerupPrice 1 st 1 0) = 1%Z /\
  units (powerupPrice2 1 st 1 0) = 1%Z /\
  (0 < 1 < units (max_price (scenario_resource 100 10000)))%Z.
Proof.
  apply (scenario_price 100 10000 1 0); try lia; lra.
Defined.

(** *** Rounding of the price *)



(** *** The decay of the adjusted utilization *)

(** The decay-adjusted utilization in the words of the specification:
    [U + clamp(diff * exp(-(now - utilization_timestamp) / decay_secs), 0, diff)]
    with [diff = Ua - U], for a time [now] in seconds. *)
Definition spec_adjusted_utilization (c : PowerUpStateResource) (now : R) : R :=
  let U := IZR (utilization c) in
  let Ua := IZR (adjusted_utilization c) in
  let diff := Ua - U in
  U + Rmin (Rmax (diff * exp (- (now - IZR (utilization_timestamp c)) / IZR (decay_secs c))) 0) diff.

(** Utilization 0, adjusted utilization 1, one decay time after the last
    update. *)
Definition decaying_resource : PowerUpStateResource :=
  mkResource 1 100000000000000 0 1 (mkAsset 1000000 4) (mkAsset 100000000 4) 2 1 0.

Lemma exp_minus_1_bounds : 0 < exp (- 1) < 1.
Proof.
  split; [apply exp_pos |].
  rewrite <- exp_0. apply exp_increasing. lra.
Qed.

(** C7, as stated, fails for [powerupPrice2]: it rounds the decayed
    difference down to an integer before clamping it, so that one decay time
    after the update the adjusted utilization is 0 where the formula gives
    [exp (-1)]. *)
Lemma decay_is_floored :
  IZR (utilization decaying_resource) < IZR (adjusted_utilization decaying_resource) /\
  adjust_utilization2 decaying_resource 1000
  <> spec_adjusted_utilization decaying_resource (IZR 1000 / 1000).
Proof.
  pose proof exp_minus_1_bounds as [He0 He1].
  split; [cbn; lra |].
  unfold adjust_utilization2, spec_adjusted_utilization, decaying_resource; cbn -[Zfloor].
  destruct (Rlt_dec 0 1) as [_ | H]; [| exfalso; apply H; lra].
  unfold Math_floor, Math_exp, Math_min, Math_max.
  replace (1000 / 1000) with 1 by lra.
  rewrite (ZfloorZ 1).
  replace (- (1 - 0) / 1) with (- 1) by lra.
  replace ((1 - 0) * exp (- 1)) with (exp (- 1)) by lra.
  rewrite (Zfloor_eq 0 (exp (- 1))) by lra.
  rewrite (Rmax_left 0 0) by lra.
  rewrite (Rmin_left 0 (1 - 0)) by lra.
  rewrite (Rmax_left (exp (- 1)) 0) by lra.
  rewrite (Rmin_left (exp (- 1)) (1 - 0)) by lra.
  lra.
Qed.

Lemma clamp_floor_close (x diff : R) :
  0 <= diff ->
  Rmin (Rmax x 0) diff - 1 < Rmin (Rmax (IZR (Zfloor x)) 0) diff <= Rmin (Rmax x 0) diff.
Proof.
  intros Hd. pose proof (Zfloor_bound x) as [Hf1 Hf2].
  assert (Hmax : Rmax x 0 - 1 < Rmax (IZR (Zfloor x)) 0 <= Rmax x 0).
  { apply (Rmax_case_strong x 0); apply (Rmax_case_strong (IZR (Zfloor x)) 0); intros; lra. }
  apply (Rmin_case_strong (Rmax x 0) diff);
    apply (Rmin_case_strong (Rmax (IZR (Zfloor x)) 0) diff); intros; lra.
Qed.

(** C7, amended.  With [U] the utilization, [Ua] the adjusted utilization
    and [diff = Ua - U] of the row:
    - in [powerupPrice], for [U < Ua], the utilization before the rental is
      [U + clamp(diff * exp(-(now - utilization_timestamp) / decay_secs), 0, diff)]
      over the weight, with [now] the time in seconds, fractions included;
    - in [powerupPrice2], for [U < Ua], the adjusted utilization is
      [U + clamp(floor(diff * exp(-(now - utilization_timestamp) / decay_secs)), 0, diff)]
      with [now] the time in whole seconds; it is at most the value of the
      formula without [floor], and less than 1 below it;
    - for [U = Ua] the step changes nothing in either store. *)
Theorem decay_adjustment (c : PowerUpStateResource) (date_now : Z) :
  let U := IZR (utilization c) in
  let Ua := IZR (adjusted_utilization c) in
  let diff := Ua - U in
  let now := IZR date_now / 1000 in
  let now2 := IZR (Zfloor (IZR date_now / 1000)) in
  let ts := IZR (utilization_timestamp c) in
  let decay := IZR (decay_secs c) in
  (U < Ua ->
   utilizationBefore c date_now = spec_adjusted_utilization c now / IZR (weight c)) /\
  (U < Ua ->
   adjust_utilization2 c date_now
     = U + Rmin (Rmax (IZR (Zfloor (diff * exp (- (now2 - ts) / decay)))) 0) diff /\
   spec_adjusted_utilization c now2 - 1 < adjust_utilization2 c date_now
     <= spec_adjusted_utilization c now2) /\
  (U = Ua ->
   adjust_utilization2 c date_now = Ua /\
   utilizationBefore c date_now = Ua / IZR (weight c) /\
   spec_adjusted_utilization c now = Ua).
Proof.
  cbv zeta. split; [| split].
  - intros Hlt. unfold utilizationBefore, spec_adjusted_utilization.
    destruct (Rlt_dec _ _) as [_ | H]; [| contradiction].
    reflexivity.
  - intros Hlt. unfold adjust_utilization2, spec_adjusted_utilization.
    destruct (Rlt_dec _ _) as [_ | H]; [| contradiction].
    unfold Math_min, Math_max, Math_floor, Math_exp.
    split; [reflexivity |].
    match goal with
    | |- _ - 1 < _ + Rmin (Rmax (IZR (Zfloor ?x)) 0) ?d <= _ =>
        pose proof (clamp_floor_close x d) as Hc
    end.
    lra.
  - intros Heq. unfold adjust_utilization2, utilizationBefore, spec_adjusted_utilization.
    destruct (Rlt_dec _ _) as [H | _]; [lra |].
    split; [reflexivity |].
    split.
    + unfold Math_max. rewrite Rmax_left by lra. rewrite Heq. reflexivity.
    + rewrite Heq.
      replace (IZR (adjusted_utilization c) - IZR (adjusted_utilization c)) with 0 by lra.
      rewrite Rmult_0_l. rewrite (Rmax_left 0 0) by lra. rewrite (Rmin_left 0 0) by lra. lra.
Qed.

(** *** The REX price *)


Definition sample_rex : REXState :=
  mkREXState (mkAsset 500000 4) (mkAsset 2000000 4) (mkAsset 10000 4) (mkAsset 2500000 4).


(** ** Further properties of the PowerUp price *)

(** *** The minimum price is a floor of the fee *)

Lemma price_function_at_least_min (c : PowerUpStateResource) (u : R) :
  valid_resource c ->
  Asset_value (min_price c)
  <= price_function (Asset_value (min_price c)) (Asset_value (max_price c))
       (exponent c) (IZR (weight c)) u.
Proof.
  intros Hv. pose proof (value_prices c Hv) as [Hmin Hmax].
  unfold price_function. destruct (Rle_dec _ _); [lra |].
  pose proof (Math_pow_nonneg (u / IZR (weight c)) (exponent c - 1)) as Hp.
  assert (0 <= (Asset_value (max_price c) - Asset_value (min_price c)) *
                 Math_pow (u / IZR (weight c)) (exponent c - 1))
    by (apply Rmult_le_pos; lra).
  lra.
Qed.

Lemma price_integral_delta_at_least_min (c : PowerUpStateResource) (s e : R) :
  valid_resource c -> 0 <= s <= e ->
  Asset_value (min_price c) * ((e - s) / IZR (weight c))
  <= price_integral_delta (Asset_value (min_price c)) (Asset_value (max_price c))
       (exponent c) (IZR (weight c)) s e.
Proof.
  intros Hv [Hs Hse].
  pose proof (value_prices c Hv) as [Hmin Hmax].
  pose proof (weight_pos c Hv) as Hw.
  pose proof (valid_exponent c Hv) as He.
  unfold price_integral_delta.
  assert (Hiw : 0 < / IZR (weight c)) by (apply Rinv_0_lt_compat; exact Hw).
  assert (H1 : 0 <= s / IZR (weight c)) by (apply Rmult_le_pos; lra).
  assert (H12 : s / IZR (weight c) <= e / IZR (weight c))
    by (apply Rmult_le_compat_r; lra).
  assert (Hpow : Math_pow (s / IZR (weight c)) (exponent c)
                 <= Math_pow (e / IZR (weight c)) (exponent c))
    by (apply Math_pow_le; lra).
  assert (Hco : 0 <= (Asset_value (max_price c) - Asset_value (min_price c)) / exponent c).
  { apply Rmult_le_pos; [lra | left; apply Rinv_0_lt_compat; lra]. }
  assert (Hb : (Asset_value (max_price c) - Asset_value (min_price c)) / exponent c
                 * Math_pow (s / IZR (weight c)) (exponent c)
               <= (Asset_value (max_price c) - Asset_value (min_price c)) / exponent c
                 * Math_pow (e / IZR (weight c)) (exponent c))
    by (apply Rmult_le_compat_l; lra).
  replace ((e - s) / IZR (weight c)) with (e / IZR (weight c) - s / IZR (weight c))
    by (unfold Rdiv; ring).
  lra.
Qed.

Lemma powerupFee_at_least_min (c : PowerUpStateResource) (s : R) (date_now : Z) (ms : R) :
  valid_resource c -> s < 100 -> 0 <= ms ->
  IZR (units (min_price c)) * (ms / (mspd * (1 - s / 100))) <= powerupFee ms c s date_now.
Proof.
  intros Hv Hs Hms.
  pose proof (mspdAvailable_pos s Hs) as Hav.
  pose proof (utilizationBefore_nonneg c date_now Hv) as Hub.
  pose proof (units_prices c Hv) as [Hmin Hmax].
  pose proof (valid_exponent c Hv) as He.
  unfold powerupFee.
  set (ub := utilizationBefore c date_now) in *.
  set (av := mspd * (1 - s / 100)) in *.
  assert (Hp : 0 <= ms / av) by (apply Rmult_le_pos; [lra | left; apply Rinv_0_lt_compat; lra]).
  assert (Hpow : Math_pow ub (exponent c) <= Math_pow (ub + ms / av) (exponent c))
    by (apply Math_pow_le; lra).
  assert (Hco : 0 <= (IZR (units (max_price c)) - IZR (units (min_price c))) / exponent c).
  { apply Rmult_le_pos; [lra | left; apply Rinv_0_lt_compat; lra]. }
  assert (Hc : 0 <= (IZR (units (max_price c)) - IZR (units (min_price c))) / exponent c
                    * (Math_pow (ub + ms / av) (exponent c) - Math_pow ub (exponent c)))
    by (apply Rmult_le_pos; lra).
  replace (ub + ms / av - ub) with (ms / av) by ring.
  lra.
Qed.

Lemma powerupFee2_at_least_min (c : PowerUpStateResource) (s : R) (date_now : Z) (ms : R) :
  valid_resource c -> s < 100 -> 0 <= ms ->
  Asset_value (min_price c) * (ms / (mspd * (1 - s / 100))) <= powerupFee2 ms c s date_now.
Proof.
  intros Hv Hs Hms.
  pose proof (mspdAvailable_pos s Hs) as Hav.
  pose proof (weight_pos c Hv) as Hw.
  pose proof (utilization_nonneg c Hv) as HU.
  pose proof (value_prices c Hv) as [Hmin Hmax].
  unfold powerupFee2.
  set (av := mspd * (1 - s / 100)) in *.
  set (A := adjust_utilization2 c date_now).
  assert (Hiw : 0 < / IZR (weight c)) by (apply Rinv_0_lt_compat; exact Hw).
  assert (Hp : 0 <= ms / av) by (apply Rmult_le_pos; [lra | left; apply Rinv_0_lt_compat; lra]).
  assert (Hinc : 0 <= IZR (weight c) * (ms / av)) by (apply Rmult_le_pos; lra).
  assert (Hshare : ms / av = IZR (weight c) * (ms / av) / IZR (weight c))
    by (field; lra).
  rewrite Hshare at 1.
  set (inc := IZR (weight c) * (ms / av)) in *.
  destruct (Rlt_dec (IZR (utilization c)) A) as [HUA | HUA].
  - pose proof (price_function_at_least_min c A Hv) as Hpf.
    set (pf := price_function _ _ _ _ A) in *.
    assert (Hflat : Asset_value (min_price c) * (Rmin inc (A - IZR (utilization c)) / IZR (weight c))
                    <= pf * Math_min inc (A - IZR (utilization c)) / IZR (weight c)).
    { unfold Math_min, Rdiv. rewrite <- Rmult_assoc.
      apply Rmult_le_compat_r; [lra |].
      apply Rmult_le_compat_r; [| exact Hpf].
      apply Rmin_glb; lra. }
    destruct (Rlt_dec A (IZR (utilization c) + inc)) as [H1 | H1].
    + pose proof (price_integral_delta_at_least_min c A (IZR (utilization c) + inc) Hv) as Hint.
      rewrite Rmin_right in Hflat by lra.
      assert (Hsplit : inc / IZR (weight c)
                       = (A - IZR (utilization c)) / IZR (weight c)
                         + (IZR (utilization c) + inc - A) / IZR (weight c))
        by (unfold Rdiv; ring).
      rewrite Hsplit, Rmult_plus_distr_l.
      assert (0 <= A <= IZR (utilization c) + inc) by lra.
      specialize (Hint H). unfold Math_min in *. lra.
    + rewrite Rmin_left in Hflat by lra. lra.
  - destruct (Rlt_dec (IZR (utilization c)) (IZR (utilization c) + inc)) as [H1 | H1].
    + pose proof (price_integral_delta_at_least_min c (IZR (utilization c))
                    (IZR (utilization c) + inc) Hv) as Hint.
      replace (IZR (utilization c) + inc - IZR (utilization c)) with inc in Hint by ring.
      assert (0 <= IZR (utilization c) <= IZR (utilization c) + inc) by lra.
      specialize (Hint H). lra.
    + assert (inc = 0) by lra. rewrite H. unfold Rdiv. rewrite Rmult_0_l, Rmult_0_r. lra.
Qed.



(** *** The price grows with the shift ratio *)

(** The fee depends on the duration and on the shift ratio through the
    share of the daily capacity alone. *)
Lemma powerupFee_share (c : PowerUpStateResource) (date_now : Z) (ms s ms' s' : R) :
  ms / (mspd * (1 - s / 100)) = ms' / (mspd * (1 - s' / 100)) ->
  powerupFee ms c s date_now = powerupFee ms' c s' date_now /\
  powerupFee2 ms c s date_now = powerupFee2 ms' c s' date_now.
Proof.
  intros H. unfold powerupFee, powerupFee2. rewrite H. split; reflexivity.
Qed.

Lemma powerupFee_nonneg (c : PowerUpStateResource) (s : R) (date_now : Z) (ms : R) :
  valid_resource c -> s < 100 -> 0 <= ms -> 0 <= powerupFee ms c s date_now.
Proof.
  intros Hv Hs Hms. rewrite <- (powerupFee_zero c date_now s).
  apply powerupFee_mono; [exact Hv | exact Hs | lra].
Qed.

Lemma powerupFee_shift_mono (c : PowerUpStateResource) (date_now : Z) (ms s1 s2 : R) :
  valid_resource c -> s1 <= s2 < 100 -> 0 <= ms ->
  powerupFee ms c s1 date_now <= powerupFee ms c s2 date_now /\
  powerupFee2 ms c s1 date_now <= powerupFee2 ms c s2 date_now.
Proof.
  intros Hv [H12 H2] Hms.
  assert (H1 : s1 < 100) by lra.
  pose proof (mspdAvailable_pos s1 H1) as Hav1.
  pose proof (mspdAvailable_pos s2 H2) as Hav2.
  set (ms' := ms * (mspd * (1 - s2 / 100)) / (mspd * (1 - s1 / 100))).
  assert (Hshare : ms / (mspd * (1 - s1 / 100)) = ms' / (mspd * (1 - s2 / 100))).
  { unfold ms'. rewrite mspd_eq in *. field. lra. }
  assert (Hms' : 0 <= ms' <= ms).
  { unfold ms'. rewrite mspd_eq in *. split.
    - apply Rmult_le_pos; [apply Rmult_le_pos; lra | left; apply Rinv_0_lt_compat; lra].
    - apply (Rmult_le_reg_r (34560000 * (1 - s1 / 100))); [lra |].
      unfold Rdiv. rewrite Rmult_assoc, Rinv_l by lra. rewrite Rmult_1_r.
      apply Rmult_le_compat_l; lra. }
  destruct (powerupFee_share c date_now ms s1 ms' s2 Hshare) as [-> ->].
  split.
  - apply powerupFee_mono; [exact Hv | exact H2 | lra].
  - apply powerupFee2_mono; [exact Hv | exact H2 | lra].
Qed.



(** *** The decayed utilization over time *)

(** The value both stores clamp, as a function of the time in seconds. *)
Lemma decay_factor_antitone (decay now1 now2 ts : R) :
  0 < decay -> now1 <= now2 ->
  exp (- (now2 - ts) / decay) <= exp (- (now1 - ts) / decay).
Proof.
  intros Hd H12.
  assert (Hle : - (now2 - ts) / decay <= - (now1 - ts) / decay).
  { apply Rmult_le_compat_r; [left; apply Rinv_0_lt_compat; exact Hd | lra]. }
  destruct Hle as [Hlt | Heq]; [left; apply exp_increasing; exact Hlt | rewrite Heq; lra].
Qed.

Lemma clamp_mono (x y diff : R) : x <= y -> Rmin (Rmax x 0) diff <= Rmin (Rmax y 0) diff.
Proof.
  intros Hxy. apply Rle_min_compat_r. apply Rle_max_compat_r. exact Hxy.
Qed.

(** X3.  Between two reads of the clock the decayed utilization does not grow:
    the surcharge only wears off. *)
Theorem decay_antitone (c : PowerUpStateResource) (t1 t2 : Z) :
  (0 < decay_secs c)%Z -> (0 < weight c)%Z -> (t1 <= t2)%Z ->
  adjust_utilization2 c t2 <= adjust_utilization2 c t1 /\
  utilizationBefore c t2 <= utilizationBefore c t1.
Proof.
  intros Hd Hw Ht. apply IZR_lt in Hd, Hw. apply IZR_le in Ht.
  unfold adjust_utilization2, utilizationBefore.
  destruct (Rlt_dec (IZR (utilization c)) (IZR (adjusted_utilization c))) as [Hlt | Hge];
    [| split; lra].
  unfold Math_min, Math_max, Math_floor, Math_exp.
  set (diff := IZR (adjusted_utilization c) - IZR (utilization c)).
  assert (Hdiff : 0 < diff) by (unfold diff; lra).
  split.
  - apply Rplus_le_compat_l. apply clamp_mono. apply IZR_le. apply Zfloor_le.
    apply Rmult_le_compat_l; [lra |].
    apply decay_factor_antitone; [exact Hd |].
    apply IZR_le. apply Zfloor_le.
    apply Rmult_le_compat_r; [lra | exact Ht].
  - apply Rmult_le_compat_r; [left; apply Rinv_0_lt_compat; exact Hw |].
    apply Rplus_le_compat_l. apply clamp_mono.
    apply Rmult_le_compat_l; [lra |].
    apply decay_factor_antitone; [exact Hd |].
    apply Rmult_le_compat_r; [lra | exact Ht].
Qed.

Lemma decay_antitone_witness :
  adjust_utilization2 surcharged_resource 5000 <= adjust_utilization2 surcharged_resource 0 /\
  utilizationBefore surcharged_resource 5000 <= utilizationBefore surcharged_resource 0.
Proof.
  apply (decay_antitone surcharged_resource 0 5000); cbn; lia.
Defined.

(** X4.  The decayed utilization stays between the utilization and the adjusted
    utilization of the row, and it is the adjusted utilization itself as
    long as the clock has not passed the timestamp of the row. *)
Theorem decay_range (c : PowerUpStateResource) (date_now : Z) :
  IZR (utilization c) < IZR (adjusted_utilization c) ->
  (0 < decay_secs c)%Z -> (0 < weight c)%Z ->
  (IZR (utilization c) <= adjust_utilization2 c date_now <= IZR (adjusted_utilization c)) /\
  (IZR (utilization c) / IZR (weight c) <= utilizationBefore c date_now
     <= IZR (adjusted_utilization c) / IZR (weight c)) /\
  (IZR date_now / 1000 <= IZR (utilization_timestamp c) ->
   adjust_utilization2 c date_now = IZR (adjusted_utilization c) /\
   utilizationBefore c date_now = IZR (adjusted_utilization c) / IZR (weight c)).
Proof.
  intros Hlt Hd Hw. apply IZR_lt in Hd, Hw.
  assert (Hiw : 0 < / IZR (weight c)) by (apply Rinv_0_lt_compat; exact Hw).
  split; [apply adjust_utilization2_bounds; exact Hlt |].
  unfold adjust_utilization2, utilizationBefore.
  destruct (Rlt_dec _ _) as [_ | H]; [| contradiction].
  unfold Math_min, Math_max, Math_floor, Math_exp.
  set (diff := IZR (adjusted_utilization c) - IZR (utilization c)).
  assert (Hdiff : 0 < diff) by (unfold diff; lra).
  split.
  - match goal with
    | |- _ <= (_ + Rmin (Rmax ?d 0) diff) / _ <= _ => pose proof (clamp_bounds d diff) as Hc
    end.
    unfold Math_min, Math_max in Hc.
    split; (apply Rmult_le_compat_r; [lra |]); unfold diff in *; lra.
  - intros Hnow.
    assert (Hexp : forall now, now <= IZR (utilization_timestamp c) ->
              diff <= diff * exp (- (now - IZR (utilization_timestamp c)) / IZR (decay_secs c))).
    { intros now Hn.
      assert (Harg : 0 <= - (now - IZR (utilization_timestamp c)) / IZR (decay_secs c)).
      { apply Rmult_le_pos; [lra | left; apply Rinv_0_lt_compat; exact Hd]. }
      assert (1 <= exp (- (now - IZR (utilization_timestamp c)) / IZR (decay_secs c))).
      { rewrite <- exp_0. destruct Harg as [Hp | <-]; [left; apply exp_increasing; exact Hp | lra]. }
      nra. }
    split.
    + assert (Hfl : IZR (Zfloor (IZR date_now / 1000)) <= IZR (utilization_timestamp c)).
      { pose proof (Zfloor_bound (IZR date_now / 1000)). lra. }
      specialize (Hexp _ Hfl).
      assert (Hfd : diff <= IZR (Zfloor (diff *
                 exp (- (IZR (Zfloor (IZR date_now / 1000)) - IZR (utilization_timestamp c))
                        / IZR (decay_secs c))))).
      { unfold diff at 1. rewrite <- minus_IZR. apply IZR_le. apply Zfloor_lub.
        rewrite minus_IZR. exact Hexp. }
      rewrite Rmax_left by lra. rewrite Rmin_right by lra. unfold diff. ring.
    + specialize (Hexp _ Hnow).
      rewrite Rmax_left by lra. rewrite Rmin_right by lra. unfold diff.
      f_equal. ring.
Qed.

Lemma decay_range_witness :
  (IZR (utilization surcharged_resource) <= adjust_utilization2 surcharged_resource 0
     <= IZR (adjusted_utilization surcharged_resource)) /\
  (IZR (utilization surcharged_resource) / IZR (weight surcharged_resource)
     <= utilizationBefore surcharged_resource 0
     <= IZR (adjusted_utilization surcharged_resource) / IZR (weight surcharged_resource)) /\
  (IZR 0 / 1000 <= IZR (utilization_timestamp surcharged_resource) ->
   adjust_utilization2 surcharged_resource 0 = IZR (adjusted_utilization surcharged_resource) /\
   utilizationBefore surcharged_resource 0
   = IZR (adjusted_utilization surcharged_resource) / IZR (weight surcharged_resource)).
Proof.
  apply (decay_range surcharged_resource 0); cbn; try lia; lra.
Defined.

End ExactFacts.

(** * Properties of the binary64 model *)
Module Binary64Facts.
Import Binary64.
Local Open Scope float_scope.

(** A double minus itself is zero, or [NaN] if it is not finite. *)
Lemma sub_diag_cases (x : float) : x - x = 0 \/ x - x = nan.
Proof.
  rewrite <- (SF2Prim_Prim2SF (x - x)), sub_spec.
  destruct (Prim2SF x) as [s | s | | s m e]; cbn.
  - destruct s; left; reflexivity.
  - destruct s; right; reflexivity.
  - right; reflexivity.
  - rewrite Z.sub_diag. left. reflexivity.
Qed.

(** With a shift ratio of zero the store returns zero, whatever the state:
    the guard of the exact model is the guard of the doubles. *)
Lemma zero_shift_price Math_exp Math_pow (ms : float) (st : option PowerUpState) (date_now : Z) :
  powerupPrice Math_exp Math_pow ms st 0 date_now = Some (Asset_fromUnits 0).
Proof. destruct st; reflexivity. Qed.

(** A pool half in use, and a request too short for the utilization after
    the rental to differ from the utilization before it. *)
Definition half_used_resource : PowerUpStateResource :=
  mkResource 2 100000000000000 1 1 (mkAsset 1000000 4) (mkAsset 100000000 4) 2 86400 0.

Definition tiny_request : float := 0x1p-40.

Lemma B2R_tiny_request : B2R tiny_request = (/ 2 ^ 40)%R.
Proof.
  unfold B2R.
  change (Prim2SF tiny_request) with (S754_finite false 4503599627370496 (-92)).
  cbv beta iota. change (powerRZ 2 (-92)) with (/ 2 ^ 92)%R. lra.
Qed.

Lemma B2R_50 : B2R 50 = 50%R.
Proof.
  unfold B2R. change (Prim2SF 50) with (S754_finite false 7036874417766400 (-47)).
  cbv beta iota. change (powerRZ 2 (-47)) with (/ 2 ^ 47)%R. lra.
Qed.

Lemma B2R_2 : B2R 2 = 2%R.
Proof.
  unfold B2R. change (Prim2SF 2) with (S754_finite false 4503599627370496 (-51)).
  cbv beta iota. change (powerRZ 2 (-51)) with (/ 2 ^ 51)%R. lra.
Qed.

(** Whatever [Math.exp] and [Math.pow] are, the store returns no price or
    a price of zero for the tiny request. *)
Lemma tiny_request_price Math_exp Math_pow :
  let p := powerupPrice Math_exp Math_pow tiny_request
             (Some (mkPowerUpState half_used_resource)) 50 0 in
  p = Some (Asset_fromUnits 0) \/ p = None.
Proof.
  unfold powerupPrice, powerupFee.
  change (truthy 50) with true. cbv iota.
  change (utilizationBefore Math_exp (cpu (mkPowerUpState half_used_resource)) 0) with 0.5.
  change (0.5 + tiny_request / (mspd * (1 - 50 / 100))) with 0.5.
  change (exponent (cpu (mkPowerUpState half_used_resource))) with 2.
  destruct (sub_diag_cases (Math_pow 0.5 2)) as [-> | ->].
  - left. vm_compute. reflexivity.
  - right. vm_compute. reflexivity.
Qed.

(** The exact fee of the same request is positive. *)
Lemma tiny_request_exact_fee :
  (0 < Exact.powerupFee (B2R tiny_request) (exact_resource half_used_resource) (B2R 50) 0)%R.
Proof.
  rewrite B2R_tiny_request, B2R_50.
  unfold Exact.powerupFee, Exact.utilizationBefore, exact_resource, half_used_resource.
  cbn -[pow]. rewrite B2R_2.
  destruct (Rlt_dec 1 1) as [H | _]; [exfalso; lra |].
  unfold Exact.Math_max. rewrite Rmax_left by lra.
  rewrite ExactFacts.mspd_eq.
  set (p := (/ 2 ^ 40 / (34560000 * (1 - 50 / 100)))%R).
  assert (Hp : (0 < p)%R).
  { unfold p. apply Rdiv_lt_0_compat; [| lra].
    apply Rinv_0_lt_compat. apply pow_lt. lra. }
  rewrite !ExactFacts.Math_pow_2 by lra.
  assert (Hpp : (0 < p * p)%R) by (apply Rmult_lt_0_compat; lra).
  lra.
Qed.


(** ** A pool that has not been initialised *)

Lemma to_nan (x : float) : Prim2SF x = S754_nan -> x = nan.
Proof. intros H. rewrite <- (SF2Prim_Prim2SF x), H. reflexivity. Qed.

Lemma add_nan_l (x : float) : nan + x = nan.
Proof. apply to_nan. rewrite add_spec. reflexivity. Qed.

Lemma sub_nan_r (x : float) : x - nan = nan.
Proof.
  apply to_nan. rewrite sub_spec.
  change (Prim2SF nan) with S754_nan. destruct (Prim2SF x); reflexivity.
Qed.

Lemma mul_nan_r (x : float) : x * nan = nan.
Proof.
  apply to_nan. rewrite mul_spec.
  change (Prim2SF nan) with S754_nan. destruct (Prim2SF x); reflexivity.
Qed.

(** X5.  With a weight of zero and no utilization the store divides zero by
    zero: whatever the request, the prices, the exponent and the shift
    ratio, the fee is [NaN] and [Asset.fromUnits] throws; no price comes
    out. *)
Theorem uninitialised_pool_throws Math_exp Math_pow (c : PowerUpStateResource)
    (ms s : float) (date_now : Z) :
  weight c = 0%Z -> utilization c = 0%Z -> adjusted_utilization c = 0%Z ->
  truthy s = true ->
  powerupFee Math_exp Math_pow ms c s date_now = nan /\
  powerupPrice Math_exp Math_pow ms (Some (mkPowerUpState c)) s date_now = None.
Proof.
  intros Hw HU HUa Hs.
  assert (Hfee : powerupFee Math_exp Math_pow ms c s date_now = nan).
  { unfold powerupFee, utilizationBefore. rewrite Hw, HU, HUa.
    change (Number_of_Z 0) with 0.
    change (Math_max 0 0 / 0) with nan.
    change (0 <? 0) with false. cbv iota.
    rewrite add_nan_l, sub_nan_r, mul_nan_r, add_nan_l. reflexivity. }
  split; [exact Hfee |].
  unfold powerupPrice. cbn [cpu]. rewrite Hs, Hfee. reflexivity.
Qed.

Definition empty_resource : PowerUpStateResource :=
  mkResource 0 0 0 0 (mkAsset 1000000 4) (mkAsset 100000000 4) 2 86400 0.

Lemma uninitialised_pool_throws_witness :
  powerupFee (fun x => x) (fun x y => x * x) 1 empty_resource 50 0 = nan /\
  powerupPrice (fun x => x) (fun x y => x * x) 1
    (Some (mkPowerUpState empty_resource)) 50 0 = None.
Proof.
  apply (uninitialised_pool_throws (fun x => x) (fun x y => x * x) empty_resource 1 50 0);
    reflexivity.
Defined.

End Binary64Facts.

(** * Properties of the account cache *)
Module AccountCacheFacts.
Import AccountCache.
Local Open Scope Z_scope.

Section Facts.
Context {L : ChainLibrary}.

(** What the callback receives for a cached row: the repaired account,
    decoded. *)
Definition decode (row : Row) : option AccountObject :=
  match fix_voter_info (account row) with
  | Some fixed => AccountObject_from fixed
  | None => None
  end.

(** The world after the node has answered. *)
Definition after_fetch (w : World) : World :=
  mkWorld (db w) (clock w + node_delay w) (node w) (node_delay w).

(** The world after [storeAccount]. *)
Definition after_store (account : AccountObject) (chainId : string) (w : World) : World :=
  mkWorld (<[accountKey (account_name account) chainId := mkRow (objectify account) (clock w)]> (db w))
    (clock w) (node w) (node_delay w).

Lemma storeAccount_run (a : AccountObject) (chainId : string) (w : World) :
  storeAccount a chainId w
  = ([EPut (accountKey (account_name a) chainId) (mkRow (objectify a) (clock w))],
     after_store a chainId w, Some tt).
Proof. reflexivity. Qed.

(** The part of [loadAccount] after the cache lookup. *)
Lemma refresh_run_success (name chainId : string) (w : World) (fresh : AccountObject) :
  node w chainId name = Some fresh ->
  bind (get_account chainId name)
    (fun account => bind (storeAccount account chainId)
       (fun _ => callback (mkResponse (Some account) false))) w
  = ([EFetch chainId name;
      EPut (accountKey (account_name fresh) chainId)
        (mkRow (objectify fresh) (clock w + node_delay w));
      ECallback (mkResponse (Some fresh) false)],
     after_store fresh chainId (after_fetch w), Some tt).
Proof. intros Hn. unfold bind, get_account. rewrite Hn. reflexivity. Qed.

Lemma refresh_run_failure (name chainId : string) (w : World) :
  node w chainId name = None ->
  bind (get_account chainId name)
    (fun account => bind (storeAccount account chainId)
       (fun _ => callback (mkResponse (Some account) false))) w
  = ([EFetch chainId name], after_fetch w, None).
Proof. intros Hn. unfold bind, get_account. rewrite Hn. reflexivity. Qed.

(** The three ways a run of [loadAccount] can go once the cached row, if
    there is one, decodes. *)
Lemma loadAccount_miss (name chainId : string) (refresh : bool) (w : World) :
  db w !! accountKey name chainId = None ->
  loadAccount name chainId refresh w
  = match node w chainId name with
    | Some fresh =>
        ([EGet (accountKey name chainId);
          EFetch chainId name;
          EPut (accountKey (account_name fresh) chainId)
            (mkRow (objectify fresh) (clock w + node_delay w));
          ECallback (mkResponse (Some fresh) false)],
         after_store fresh chainId (after_fetch w), Some tt)
    | None => ([EGet (accountKey name chainId); EFetch chainId name], after_fetch w, None)
    end.
Proof.
  intros Hrow.
  unfold loadAccount, bind, db_get, ret, get_account, storeAccount, Date_now, db_put, callback.
  rewrite Hrow. cbn [orb].
  destruct (node w chainId name) as [fresh |]; reflexivity.
Qed.

Lemma loadAccount_hit (name chainId : string) (refresh : bool) (w : World)
    (row : Row) (a : AccountObject) :
  db w !! accountKey name chainId = Some row ->
  decode row = Some a ->
  loadAccount name chainId refresh w
  = let stale := clock w - updated row >? maxAge in
    let cached := ECallback (mkResponse (Some a) stale) in
    if stale || refresh then
      match node w chainId name with
      | Some fresh =>
          ([EGet (accountKey name chainId);
            cached;
            EFetch chainId name;
            EPut (accountKey (account_name fresh) chainId)
              (mkRow (objectify fresh) (clock w + node_delay w));
            ECallback (mkResponse (Some fresh) false)],
           after_store fresh chainId (after_fetch w), Some tt)
      | None =>
          ([EGet (accountKey name chainId); cached; EFetch chainId name], after_fetch w, None)
      end
    else ([EGet (accountKey name chainId); cached], w, Some tt).
Proof.
  intros Hrow Hdec. unfold decode in Hdec.
  destruct (fix_voter_info (account row)) as [fixed |] eqn:Hfix; [| discriminate].
  unfold loadAccount, bind, db_get, ret, get_account, storeAccount, Date_now, db_put,
    callback, lift_option.
  rewrite Hrow, Hfix. unfold ret. rewrite Hdec. cbn [app]. cbv zeta.
  destruct ((clock w - updated row >? maxAge) || refresh).
  - destruct (node w chainId name) as [fresh |]; reflexivity.
  - reflexivity.
Qed.

Lemma in_trace_hit (e cached x : Event) (l : list Event) :
  In e (x :: cached :: l) <-> e = x \/ e = cached \/ In e l.
Proof. cbn [In]. intuition congruence. Qed.

Lemma gtb_true_iff (a b : Z) : (a >? b) = true <-> a > b.
Proof. rewrite Z.gtb_ltb, Z.ltb_lt. lia. Qed.


(** C5.  The [stale] flag of the callback on a cached row is [true]
    exactly if the age of the row, [now - updated], exceeds [maxAge], and
    [maxAge] is 60,000 ms. *)
Theorem cached_stale_flag (w : World) (name chainId : string) (refresh : bool)
    (row : Row) (a : AccountObject) :
  db w !! accountKey name chainId = Some row ->
  decode row = Some a ->
  maxAge = 60000 /\
  exists flag rest,
    trace (loadAccount name chainId refresh) w
    = EGet (accountKey name chainId) :: ECallback (mkResponse (Some a) flag) :: rest /\
    (flag = true <-> clock w - updated row > 60000).
Proof.
  intros Hrow Ha. split; [reflexivity |].
  exists (clock w - updated row >? maxAge).
  unfold trace. rewrite (loadAccount_hit name chainId refresh w row a Hrow Ha). cbv zeta.
  destruct ((clock w - updated row >? maxAge) || refresh);
    [destruct (node w chainId name) |]; cbn [fst snd];
    (eexists; split; [reflexivity | apply gtb_true_iff]).
Qed.

(** The repair leaves a freshly serialized account as it is. *)
Lemma fix_voter_info_objectify {Laws : ChainLibraryLaws L} (a : AccountObject) :
  fix_voter_info (objectify a) = Some (objectify a).
Proof.
  unfold fix_voter_info.
  destruct (truthy (objectify a) && truthy (get_prop (objectify a) "voter_info")) eqn:Hc;
    [| reflexivity].
  apply andb_true_iff in Hc as [_ Hvi].
  destruct (objectify_weights a Hvi) as [Hl Hp].
  unfold fix_weight. rewrite Hl. cbn [negb]. rewrite Hp. cbn [negb].
  destruct (objectify a) as [| | | | | fields]; try discriminate Hvi.
  cbn [set_prop]. f_equal. f_equal.
  apply insert_id.
  unfold get_prop in *.
  destruct (fields !! "voter_info") as [vi |]; [reflexivity | discriminate Hvi].
Qed.

Lemma decode_objectify {Laws : ChainLibraryLaws L} (a : AccountObject) (t : Z) :
  decode (mkRow (objectify a) t) = Some a.
Proof.
  unfold decode. cbn [account]. rewrite fix_voter_info_objectify. apply from_objectify.
Qed.

(** C8.  With a chain library that decodes what it serializes:
    [storeAccount] returns, and a [loadAccount] for the name of the stored
    account and the same chain, run on the store it left (at any later time,
    with or without [refresh]), calls back first with an account equal to
    the one stored. *)
Theorem store_then_load {Laws : ChainLibraryLaws L} (a : AccountObject) (chainId : string)
    (w w2 : World) (refresh : bool) :
  db w2 = db (final (storeAccount a chainId) w) ->
  outcome (storeAccount a chainId) w = Some tt /\
  exists flag rest,
    trace (loadAccount (account_name a) chainId refresh) w2
    = EGet (accountKey (account_name a) chainId)
        :: ECallback (mkResponse (Some a) flag) :: rest.
Proof.
  intros Hdb. split; [reflexivity |].
  assert (Hrow : db w2 !! accountKey (account_name a) chainId
                 = Some (mkRow (objectify a) (clock w))).
  { rewrite Hdb. unfold final. rewrite storeAccount_run. cbn [fst snd after_store db].
    apply lookup_insert_eq. }
  unfold trace.
  rewrite (loadAccount_hit _ chainId refresh w2 _ a Hrow (decode_objectify a (clock w))).
  cbv zeta.
  destruct ((clock w2 - updated _ >? maxAge) || refresh);
    [destruct (node w2 chainId (account_name a)) |]; cbn [fst snd];
    do 2 eexists; reflexivity.
Qed.

(** ** The rows of the cache decode *)

(** Every row of the store decodes: the hypothesis of the theorems above
    on the cached row.  It holds of the empty store, and the cache keeps
    it. *)
Definition cache_decodes (w : World) : Prop :=
  forall key row, db w !! key = Some row -> is_Some (decode row).

Lemma cache_decodes_empty (t : Z) (n : string -> string -> option AccountObject) (d : Z) :
  cache_decodes (mkWorld ∅ t n d).
Proof. intros key row H. cbn [db] in H. rewrite lookup_empty in H. discriminate. Qed.

Lemma cache_decodes_store {Laws : ChainLibraryLaws L} (a : AccountObject) (chainId : string)
    (w : World) :
  cache_decodes w -> cache_decodes (final (storeAccount a chainId) w).
Proof.
  intros Hw key row. unfold final. rewrite storeAccount_run.
  cbn [fst snd after_store db].
  destruct (decide (accountKey (account_name a) chainId = key)) as [<- | Hne].
  - rewrite lookup_insert_eq. intros H. injection H as <-.
    rewrite decode_objectify. eexists; reflexivity.
  - rewrite lookup_insert_ne by exact Hne. apply Hw.
Qed.

Lemma cache_decodes_load {Laws : ChainLibraryLaws L} (name chainId : string) (refresh : bool)
    (w : World) :
  cache_decodes w -> cache_decodes (final (loadAccount name chainId refresh) w).
Proof.
  intros Hw.
  assert (Hfetch : forall fresh, cache_decodes (after_store fresh chainId (after_fetch w))).
  { intros fresh.
    apply (cache_decodes_store fresh chainId (after_fetch w)). exact Hw. }
  unfold final.
  destruct (db w !! accountKey name chainId) as [row |] eqn:Hrow.
  - destruct (Hw _ row Hrow) as [a Ha].
    rewrite (loadAccount_hit name chainId refresh w row a Hrow Ha). cbv zeta.
    destruct ((clock w - updated row >? maxAge) || refresh);
      [destruct (node w chainId name) as [fresh |] |]; cbn [fst snd];
      [apply Hfetch | exact Hw | exact Hw].
  - rewrite (loadAccount_miss name chainId refresh w Hrow).
    destruct (node w chainId name) as [fresh |]; cbn [fst snd]; [apply Hfetch | exact Hw].
Qed.

(** X11.  Two calls in quick succession: after a run that has fetched the account
    asked for, a second run for the same key that starts within [maxAge] of
    the moment the row was stored, without [refresh], sends no request. *)
Lemma second_load_hits_cache {Laws : ChainLibraryLaws L} (name chainId : string)
    (refresh : bool) (w w2 : World) (fresh : AccountObject) :
  In (EFetch chainId name) (trace (loadAccount name chainId refresh) w) ->
  node w chainId name = Some fresh ->
  account_name fresh = name ->
  cache_decodes w ->
  db w2 = db (final (loadAccount name chainId refresh) w) ->
  clock w2 - (clock w + node_delay w) <= maxAge ->
  fetches (trace (loadAccount name chainId false) w2) = [] /\
  exists rest,
    trace (loadAccount name chainId false) w2
    = EGet (accountKey name chainId) :: ECallback (mkResponse (Some fresh) false) :: rest.
Proof.
  intros Hin Hn Hname Hw Hdb Hage.
  assert (Hfinal : db (final (loadAccount name chainId refresh) w)
                   = <[accountKey name chainId :=
                         mkRow (objectify fresh) (clock w + node_delay w)]> (db w)).
  { unfold final, trace in *.
    destruct (db w !! accountKey name chainId) as [row |] eqn:Hrow.
    - destruct (Hw _ row Hrow) as [a Ha].
      rewrite (loadAccount_hit name chainId refresh w row a Hrow Ha) in *. cbv zeta in *.
      destruct ((clock w - updated row >? maxAge) || refresh).
      + rewrite Hn. cbn [fst snd after_store after_fetch db clock]. rewrite Hname. reflexivity.
      + cbn [fst snd In] in Hin. destruct Hin as [H | [H | []]]; discriminate.
    - rewrite (loadAccount_miss name chainId refresh w Hrow), Hn.
      cbn [fst snd after_store after_fetch db clock]. rewrite Hname. reflexivity. }
  assert (Hrow2 : db w2 !! accountKey name chainId
                  = Some (mkRow (objectify fresh) (clock w + node_delay w))).
  { rewrite Hdb, Hfinal. apply lookup_insert_eq. }
  unfold trace.
  rewrite (loadAccount_hit name chainId false w2 _ fresh Hrow2
             (decode_objectify fresh (clock w + node_delay w))).
  cbv zeta. cbn [updated].
  assert (Hs : (clock w2 - (clock w + node_delay w) >? maxAge) = false).
  { destruct (clock w2 - (clock w + node_delay w) >? maxAge) eqn:E; [| reflexivity].
    apply gtb_true_iff in E. lia. }
  rewrite Hs. cbn [orb fst snd]. split; [reflexivity |]. eexists; reflexivity.
Qed.

(** ** Further properties of [loadAccount] *)

Definition is_callback (e : Event) : bool :=
  match e with ECallback _ => true | _ => false end.
Definition is_put (e : Event) : bool :=
  match e with EPut _ _ => true | _ => false end.
Definition callbacks (t : list Event) : list Event := filter (fun e => is_callback e = true) t.
Definition puts (t : list Event) : list Event := filter (fun e => is_put e = true) t.

(** A cached row that does not decode ends the run at once. *)
Lemma loadAccount_corrupt (name chainId : string) (refresh : bool) (w : World) (row : Row) :
  db w !! accountKey name chainId = Some row ->
  decode row = None ->
  loadAccount name chainId refresh w = ([EGet (accountKey name chainId)], w, None).
Proof.
  intros Hrow Hdec. unfold decode in Hdec.
  unfold loadAccount, bind, db_get, ret, Date_now, lift_option, throw.
  rewrite Hrow.
  destruct (fix_voter_info (account row)) as [fixed |]; [| reflexivity].
  unfold ret. rewrite Hdec. reflexivity.
Qed.

(** The five shapes of a run. *)
Lemma loadAccount_cases (name chainId : string) (refresh : bool) (w : World) :
  let key := accountKey name chainId in
  let run := loadAccount name chainId refresh w in
  (exists cached, run = ([EGet key; ECallback cached], w, Some tt)) \/
  run = ([EGet key], w, None) \/
  (exists before fresh,
     node w chainId name = Some fresh /\
     (before = [] \/ exists cached, before = [ECallback cached]) /\
     run = (EGet key :: before ++
              [EFetch chainId name;
               EPut (accountKey (account_name fresh) chainId)
                 (mkRow (objectify fresh) (clock w + node_delay w));
               ECallback (mkResponse (Some fresh) false)],
            after_store fresh chainId (after_fetch w), Some tt)) \/
  (exists before,
     node w chainId name = None /\
     (before = [] \/ exists cached, before = [ECallback cached]) /\
     run = (EGet key :: before ++ [EFetch chainId name], after_fetch w, None)).
Proof.
  cbv zeta.
  destruct (db w !! accountKey name chainId) as [row |] eqn:Hrow.
  - destruct (decode row) as [a |] eqn:Ha.
    + rewrite (loadAccount_hit name chainId refresh w row a Hrow Ha). cbv zeta.
      destruct ((clock w - updated row >? maxAge) || refresh).
      * destruct (node w chainId name) as [fresh |] eqn:Hn.
        -- right. right. left. eexists _, fresh.
           split; [reflexivity |]. split; [right; eexists; reflexivity | reflexivity].
        -- right. right. right. eexists.
           split; [reflexivity |]. split; [right; eexists; reflexivity | reflexivity].
      * left. eexists. reflexivity.
    + rewrite (loadAccount_corrupt name chainId refresh w row Hrow Ha). right. left. reflexivity.
  - rewrite (loadAccount_miss name chainId refresh w Hrow).
    destruct (node w chainId name) as [fresh |] eqn:Hn.
    + right. right. left. exists [], fresh.
      split; [reflexivity |]. split; [left; reflexivity | reflexivity].
    + right. right. right. exists [].
      split; [reflexivity |]. split; [left; reflexivity | reflexivity].
Qed.

(** X6.  A cached row that does not decode blocks the account: the run is
    rejected right after the lookup, with or without [refresh]; nothing is
    delivered, no request is sent and the row stays where it is. *)
Theorem corrupt_row_blocks_refresh (name chainId : string) (refresh : bool) (w : World)
    (row : Row) :
  db w !! accountKey name chainId = Some row ->
  decode row = None ->
  trace (loadAccount name chainId refresh) w = [EGet (accountKey name chainId)] /\
  final (loadAccount name chainId refresh) w = w /\
  outcome (loadAccount name chainId refresh) w = None.
Proof.
  intros Hrow Hdec. unfold trace, final, outcome.
  rewrite (loadAccount_corrupt name chainId refresh w row Hrow Hdec). repeat split.
Qed.

(** X7.  Whatever the world: a run looks up the cache first, sends at most one
    request, for the account asked for, stores at most one row, and calls
    back at most twice. *)
Theorem loadAccount_effect_bounds (name chainId : string) (refresh : bool) (w : World) :
  let t := trace (loadAccount name chainId refresh) w in
  (exists rest, t = EGet (accountKey name chainId) :: rest) /\
  (fetches t = [] \/ fetches t = [EFetch chainId name]) /\
  (length (puts t) <= 1)%nat /\
  (length (callbacks t) <= 2)%nat /\
  (length (puts t) <= length (fetches t))%nat.
Proof.
  cbv zeta. unfold trace.
  destruct (loadAccount_cases name chainId refresh w)
    as [[cached ->] | [-> | [(before & fresh & _ & Hb & ->) | (before & _ & Hb & ->)]]];
    cbn [fst snd]; (split; [eexists; reflexivity |]);
    try destruct Hb as [-> | [cached ->]]; cbn;
    repeat split; try first [lia | left; reflexivity | right; reflexivity];
    repeat (case_decide; try discriminate); cbn; lia.
Qed.

(** X8.  A run changes the store in one place at most, the row under the key of
    the account the node has sent, and it removes nothing. *)
Theorem loadAccount_frame (name chainId : string) (refresh : bool) (w : World) (k : string) :
  let w' := final (loadAccount name chainId refresh) w in
  (db w' !! k = db w !! k \/
   exists fresh,
     node w chainId name = Some fresh /\
     k = accountKey (account_name fresh) chainId /\
     db w' !! k = Some (mkRow (objectify fresh) (clock w + node_delay w))) /\
  (is_Some (db w !! k) -> is_Some (db w' !! k)).
Proof.
  cbv zeta. unfold final.
  destruct (loadAccount_cases name chainId refresh w)
    as [[cached ->] | [-> | [(before & fresh & Hn & _ & ->) | (before & _ & _ & ->)]]];
    cbn [fst snd]; try (split; [left; reflexivity | auto]).
  unfold after_store, after_fetch. cbn [db clock].
  destruct (decide (accountKey (account_name fresh) chainId = k)) as [<- | Hne].
  - rewrite lookup_insert_eq. split; [| intros _; eexists; reflexivity].
    right. exists fresh. repeat split. exact Hn.
  - rewrite lookup_insert_ne by exact Hne. split; [left; reflexivity | auto].
Qed.

(** X9.  When the node does not answer, the store is left as it is, the run is
    rejected if it had sent a request, and every callback that was made
    carries what the cache held. *)
Theorem node_failure_keeps_cache (name chainId : string) (refresh : bool) (w : World) :
  node w chainId name = None ->
  let run := loadAccount name chainId refresh in
  db (final run w) = db w /\
  puts (trace run w) = [] /\
  (In (EFetch chainId name) (trace run w) -> outcome run w = None) /\
  (forall v, In (ECallback v) (trace run w) ->
     exists row, db w !! accountKey name chainId = Some row /\
       decode row = response_account v /\
       stale v = (clock w - updated row >? maxAge)).
Proof.
  intros Hn. cbv zeta. unfold trace, final, outcome.
  destruct (db w !! accountKey name chainId) as [row |] eqn:Hrow.
  - destruct (decode row) as [a |] eqn:Ha.
    + rewrite (loadAccount_hit name chainId refresh w row a Hrow Ha). cbv zeta. rewrite Hn.
      assert (Hcached : forall v,
                ECallback (mkResponse (Some a) (clock w - updated row >? maxAge)) = ECallback v ->
                exists row0, Some row = Some row0 /\ decode row0 = response_account v /\
                  stale v = (clock w - updated row0 >? maxAge)).
      { intros v H. injection H as <-. exists row. cbn. rewrite Ha. repeat split. }
      destruct ((clock w - updated row >? maxAge) || refresh); cbn [fst snd In].
      * split; [reflexivity |]. split; [reflexivity |]. split; [reflexivity |].
        intros v [H | [H | [H | []]]]; try discriminate. apply Hcached. exact H.
      * split; [reflexivity |]. split; [reflexivity |].
        split; [intros [H | [H | []]]; discriminate |].
        intros v [H | [H | []]]; try discriminate. apply Hcached. exact H.
    + rewrite (loadAccount_corrupt name chainId refresh w row Hrow Ha). cbn [fst snd In].
      split; [reflexivity |]. split; [reflexivity |].
      split; [intros [H | []]; discriminate |].
      intros v [H | []]; discriminate.
  - rewrite (loadAccount_miss name chainId refresh w Hrow), Hn. cbn [fst snd In].
    split; [reflexivity |]. split; [reflexivity |]. split; [reflexivity |].
    intros v [H | [H | []]]; discriminate.
Qed.

(** X10.  The cache keeps its rows decodable: with a chain library that decodes
    what it serializes, neither [storeAccount] nor [loadAccount] leaves a row
    behind that a later run could not decode. *)
Theorem cache_stays_decodable {Laws : ChainLibraryLaws L} (w : World) :
  cache_decodes w ->
  (forall a chainId, cache_decodes (final (storeAccount a chainId) w)) /\
  (forall name chainId refresh, cache_decodes (final (loadAccount name chainId refresh) w)).
Proof.
  intros Hw. split.
  - intros a chainId. apply cache_decodes_store. exact Hw.
  - intros name chainId refresh. apply cache_decodes_load. exact Hw.
Qed.

End Facts.

(** ** A small chain library, for the examples *)

(** An account with a name that may have voted; its vote weights are
    fixed. *)
Record ToyAccount := mkToy { toy_name : string; toy_voter : bool }.

Definition toy_objectify (a : ToyAccount) : Json :=
  let name_field := {[ "account_name" := JString (toy_name a) ]} in
  if toy_voter a then
    JObject (<[ "voter_info" :=
                  JObject (<[ "last_vote_weight" := JString "1.5" ]>
                             {[ "proxied_vote_weight" := JString "0.0" ]}) ]> name_field)
  else JObject name_field.

Definition toy_from (j : Json) : option ToyAccount :=
  match get_prop j "account_name" with
  | JString n => Some (mkToy n (truthy (get_prop j "voter_info")))
  | _ => None
  end.

#[local] Instance toy_library : ChainLibrary :=
  {| AccountObject := ToyAccount;
     account_name := toy_name;
     objectify := toy_objectify;
     AccountObject_from := toy_from |}.

Lemma toy_library_laws : ChainLibraryLaws toy_library.
Proof.
  constructor.
  - intros [n v]. destruct v; reflexivity.
  - intros [n v] H. destruct v; [split; reflexivity | discriminate H].
Qed.

Definition alice : @AccountObject toy_library := mkToy "alice" true.

(** A world with a row for alice cached at time 1000, read at time 5000. *)
Definition toy_world : World :=
  mkWorld {[ "aca376f2-alice" := mkRow (toy_objectify alice) 1000 ]} 5000
    (fun _ n => Some (mkToy n true)) 20.

Lemma toy_world_row (row : Row) :
  db toy_world !! accountKey "alice" "aca376f2" = Some row ->
  row = mkRow (toy_objectify alice) 1000.
Proof. intros H. vm_compute in H. injection H as <-. reflexivity. Qed.


Lemma cached_stale_flag_witness :
  maxAge = 60000 /\
  exists flag rest,
    trace (loadAccount "alice" "aca376f2" false) toy_world
    = EGet (accountKey "alice" "aca376f2") :: ECallback (mkResponse (Some alice) flag) :: rest /\
    (flag = true <-> clock toy_world - 1000 > 60000).
Proof.
  apply (cached_stale_flag toy_world "alice" "aca376f2" false
           (mkRow (toy_objectify alice) 1000) alice); reflexivity.
Defined.

Lemma store_then_load_witness :
  outcome (storeAccount alice "aca376f2") toy_world = Some tt /\
  exists flag rest,
    trace (loadAccount "alice" "aca376f2" true)
      (final (storeAccount alice "aca376f2") toy_world)
    = EGet (accountKey "alice" "aca376f2") :: ECallback (mkResponse (Some alice) flag) :: rest.
Proof.
  apply (store_then_load (Laws := toy_library_laws) alice "aca376f2" toy_world
           (final (storeAccount alice "aca376f2") toy_world) true).
  reflexivity.
Defined.

(** A row that is not a serialized account, and a node that does not
    answer. *)
Definition broken_world : World :=
  mkWorld {[ "aca376f2-alice" := mkRow JNull 1000 ]} 5000 (fun _ _ => None) 20.

Definition offline_world : World :=
  mkWorld {[ "aca376f2-alice" := mkRow (toy_objectify alice) 1000 ]} 90000
    (fun _ _ => None) 20.

Lemma corrupt_row_blocks_refresh_witness :
  trace (loadAccount "alice" "aca376f2" true) broken_world
  = [EGet (accountKey "alice" "aca376f2")] /\
  final (loadAccount "alice" "aca376f2" true) broken_world = broken_world /\
  outcome (loadAccount "alice" "aca376f2" true) broken_world = None.
Proof.
  apply (corrupt_row_blocks_refresh "alice" "aca376f2" true broken_world (mkRow JNull 1000));
    reflexivity.
Defined.

Lemma node_failure_keeps_cache_witness :
  let run := loadAccount "alice" "aca376f2" false in
  db (final run offline_world) = db offline_world /\
  puts (trace run offline_world) = [] /\
  (In (EFetch "aca376f2" "alice") (trace run offline_world) ->
   outcome run offline_world = None) /\
  (forall v, In (ECallback v) (trace run offline_world) ->
     exists row, db offline_world !! accountKey "alice" "aca376f2" = Some row /\
       decode row = response_account v /\
       stale v = (clock offline_world - updated row >? maxAge)).
Proof.
  apply (node_failure_keeps_cache "alice" "aca376f2" false offline_world). reflexivity.
Defined.

Lemma toy_world_decodes : cache_decodes toy_world.
Proof.
  intros key row H. unfold toy_world in H. cbn [db] in H.
  apply lookup_singleton_Some in H as [_ <-]. exists alice. reflexivity.
Qed.

Lemma cache_stays_decodable_witness :
  (forall a chainId, cache_decodes (final (storeAccount a chainId) toy_world)) /\
  (forall name chainId refresh,
     cache_decodes (final (loadAccount name chainId refresh) toy_world)).
Proof.
  apply (cache_stays_decodable (Laws := toy_library_laws) toy_world).
  exact toy_world_decodes.
Defined.

(** The world of the second call: the store the first call has left, half
    a minute later. *)
Definition toy_world_later : World :=
  mkWorld (db (final (loadAccount "alice" "aca376f2" true) toy_world)) 35020
    (fun _ n => Some (mkToy n true)) 20.

Lemma second_load_hits_cache_witness :
  fetches (trace (loadAccount "alice" "aca376f2" false) toy_world_later) = [] /\
  exists rest,
    trace (loadAccount "alice" "aca376f2" false) toy_world_later
    = EGet (accountKey "alice" "aca376f2") :: ECallback (mkResponse (Some alice) false) :: rest.
Proof.
  apply (second_load_hits_cache (Laws := toy_library_laws) "alice" "aca376f2" true
           toy_world toy_world_later alice).
  - vm_compute. right. right. left. reflexivity.
  - reflexivity.
  - reflexivity.
  - exact toy_world_decodes.
  - reflexivity.
  - vm_compute. discriminate.
Defined.

End AccountCacheFacts.

(** * Properties of the account stores *)
Module AccountProviderFacts.
Import AccountCache AccountProvider AccountCacheFacts.
Local Open Scope Z_scope.

Section Facts.
Context {L : ChainLibrary}.

Lemma getAccount_unfold (name chainId : string) (refresh : bool) (w : World) :
  getAccount name chainId refresh w
  = let values :=
      initial_value :: store_history initial_value (trace (loadAccount name chainId refresh) w) in
    match outcome (loadAccount name chainId refresh) w with
    | Some _ => values
    | None => values ++ [store_update_error (List.last values initial_value)]
    end.
Proof.
  unfold getAccount, trace, outcome.
  destruct (loadAccount name chainId refresh w) as [[t w'] r]. reflexivity.
Qed.

(** X13.  The value a subscriber of [getAccount] sees in the end, read off the
    cache, the clock and the node: a fresh cached account as it is; the
    account the node has sent, never stale; what the cache held, with the
    error, if the node did not answer; the initial value with the error if
    there was nothing to show. *)
Theorem getAccount_final_value (name chainId : string) (refresh : bool) (w : World) :
  getAccount_final name chainId refresh w
  = match db w !! accountKey name chainId with
    | Some row =>
        match decode row with
        | Some a =>
            let stale := clock w - updated row >? maxAge in
            if stale || refresh then
              match node w chainId name with
              | Some fresh => mkValue (Some fresh) false false
              | None => mkValue (Some a) stale true
              end
            else mkValue (Some a) false false
        | None => mkValue None true true
        end
    | None =>
        match node w chainId name with
        | Some fresh => mkValue (Some fresh) false false
        | None => mkValue None true true
        end
    end.
Proof.
  unfold getAccount_final. rewrite getAccount_unfold. unfold trace, outcome.
  destruct (db w !! accountKey name chainId) as [row |] eqn:Hrow.
  - destruct (decode row) as [a |] eqn:Ha.
    + rewrite (loadAccount_hit name chainId refresh w row a Hrow Ha). cbv zeta.
      destruct (clock w - updated row >? maxAge); destruct refresh; cbn [orb];
        try destruct (node w chainId name); reflexivity.
    + rewrite (loadAccount_corrupt name chainId refresh w row Hrow Ha). reflexivity.
  - rewrite (loadAccount_miss name chainId refresh w Hrow).
    destruct (node w chainId name); reflexivity.
Qed.

(** X14.  The store of [getAccount] starts from [{stale: true}]; it ends with an
    error exactly if the run of [loadAccount] was rejected; and it never
    ends without an account unless it ends with an error. *)
Theorem getAccount_account_or_error (name chainId : string) (refresh : bool) (w : World) :
  let final_value := getAccount_final name chainId refresh w in
  (exists rest, getAccount name chainId refresh w = initial_value :: rest) /\
  (value_error final_value = true <-> outcome (loadAccount name chainId refresh) w = None) /\
  (value_account final_value = None -> value_error final_value = true).
Proof.
  cbv zeta. unfold getAccount_final. rewrite getAccount_unfold. unfold trace, outcome.
  destruct (db w !! accountKey name chainId) as [row |] eqn:Hrow.
  - destruct (decode row) as [a |] eqn:Ha.
    + rewrite (loadAccount_hit name chainId refresh w row a Hrow Ha). cbv zeta.
      destruct ((clock w - updated row >? maxAge) || refresh);
        [destruct (node w chainId name) |]; cbn;
        (split; [eexists; reflexivity |]);
        (split; [split; intros H; first [reflexivity | discriminate H]
                | intros H; first [reflexivity | discriminate H]]).
    + rewrite (loadAccount_corrupt name chainId refresh w row Hrow Ha). cbn.
      split; [eexists; reflexivity |]. split; [split; reflexivity | reflexivity].
  - rewrite (loadAccount_miss name chainId refresh w Hrow).
    destruct (node w chainId name); cbn;
      (split; [eexists; reflexivity |]);
      (split; [split; intros H; first [reflexivity | discriminate H]
              | intros H; first [reflexivity | discriminate H]]).
Qed.

(** X15.  Once the store of [getAccount] has shown an account it keeps showing
    one: the values without an account come first. *)
Theorem getAccount_keeps_account (name chainId : string) (refresh : bool) (w : World) :
  exists without with_account,
    getAccount name chainId refresh w = without ++ with_account /\
    Forall (fun v => value_account v = None) without /\
    Forall (fun v => value_account v <> None) with_account.
Proof.
  rewrite getAccount_unfold. unfold trace, outcome.
  destruct (db w !! accountKey name chainId) as [row |] eqn:Hrow.
  - destruct (decode row) as [a |] eqn:Ha.
    + rewrite (loadAccount_hit name chainId refresh w row a Hrow Ha). cbv zeta.
      exists [initial_value].
      destruct ((clock w - updated row >? maxAge) || refresh);
        [destruct (node w chainId name) |]; cbn; eexists;
        (split; [reflexivity |]); split; repeat constructor; discriminate.
    + rewrite (loadAccount_corrupt name chainId refresh w row Hrow Ha). cbn.
      exists [initial_value; store_update_error initial_value], [].
      split; [reflexivity |]. split; repeat constructor.
  - rewrite (loadAccount_miss name chainId refresh w Hrow).
    destruct (node w chainId name); cbn.
    + exists [initial_value]. eexists. split; [reflexivity |].
      split; repeat constructor; discriminate.
    + exists [initial_value; store_update_error initial_value], [].
      split; [reflexivity |]. split; repeat constructor.
Qed.

End Facts.

End AccountProviderFacts.

(** * Properties of the token keys *)
Module TokenKeyFacts.
Import TokenKey.
Local Open Scope string_scope.

Lemma lower_ascii_dash (c : ascii) : Ascii.eqb (lower_ascii c) "-" = Ascii.eqb c "-".
Proof. destruct c as [[] [] [] [] [] [] [] []]; reflexivity. Qed.

Lemma has_dash_toLowerCase (s : string) : has_dash (toLowerCase s) = has_dash s.
Proof.
  induction s as [| c s IH]; [reflexivity |].
  cbn [toLowerCase has_dash]. rewrite lower_ascii_dash, IH. reflexivity.
Qed.

Lemma toLowerCase_app (a b : string) :
  toLowerCase (a +:+ b) = toLowerCase a +:+ toLowerCase b.
Proof.
  induction a as [| c a IH]; [reflexivity |].
  simpl. rewrite IH. reflexivity.
Qed.

(** A string without separator is recovered from what follows it. *)
Lemma split_at_dash (a b x y : string) :
  has_dash a = false -> has_dash b = false ->
  a +:+ String "-" x = b +:+ String "-" y ->
  a = b /\ x = y.
Proof.
  revert b. induction a as [| c a IH]; intros [| d b] Ha Hb Heq; cbn in *.
  - injection Heq as ->. split; reflexivity.
  - injection Heq as <- _. cbn in Hb. discriminate.
  - injection Heq as -> _. cbn in Ha. discriminate.
  - injection Heq as -> Heq.
    apply orb_false_iff in Ha as [_ Ha]. apply orb_false_iff in Hb as [_ Hb].
    destruct (IH b Ha Hb Heq) as [-> ->]. split; reflexivity.
Qed.

Lemma makeTokenKey_unfold (t : TokenKeyParams) :
  makeTokenKey t
  = toLowerCase (chainId t)
      +:+ String "-" (toLowerCase (contract t) +:+ String "-" (toLowerCase (name t))).
Proof.
  unfold makeTokenKey. cbn [join].
  rewrite !toLowerCase_app. reflexivity.
Qed.

(** The half of C10 that holds as stated: letter case does not matter. *)
Lemma makeTokenKey_case_insensitive (t1 t2 : TokenKeyParams) :
  same_up_to_case t1 t2 -> makeTokenKey t1 = makeTokenKey t2.
Proof.
  intros (Hc & Hk & Hn). rewrite !makeTokenKey_unfold, Hc, Hk, Hn. reflexivity.
Qed.

Example makeTokenKey_EOS_eos (c k : string) :
  makeTokenKey (mkParams c k "EOS") = makeTokenKey (mkParams c k "eos").
Proof. apply makeTokenKey_case_insensitive. repeat split. Qed.




End TokenKeyFacts.

(** * The keys of the account cache *)
Module CacheKeyFacts.
Import AccountCache.
Local Open Scope string_scope.

(** X12.  Two accounts share a row of the cache only if they are the same account
    on the same chain, as long as the chain ids do not contain the separator
    ["-"] (a chain id is a checksum in hexadecimal). *)
Theorem accountKey_injective (name name' chainId chainId' : string) :
  TokenKey.has_dash chainId = false -> TokenKey.has_dash chainId' = false ->
  (accountKey name chainId = accountKey name' chainId' <-> name = name' /\ chainId = chainId').
Proof.
  intros Hc Hc'. split.
  - unfold accountKey. intros Heq.
    destruct (TokenKeyFacts.split_at_dash chainId chainId' name name' Hc Hc' Heq) as [-> ->].
    split; reflexivity.
  - intros [-> ->]. reflexivity.
Qed.

Lemma accountKey_injective_witness :
  accountKey "alice" "aca376f2" = accountKey "bob" "aca376f2"
  <-> "alice" = "bob" /\ "aca376f2" = "aca376f2".
Proof.
  apply (accountKey_injective "alice" "bob" "aca376f2" "aca376f2"); reflexivity.
Defined.

End CacheKeyFacts.

(** * Properties of the token store *)
Module TokenStoreFacts.
Import TokenStore.

Section Facts.
Context {S : SymbolLibrary} {D : TokenData}.

(** The token [setTokenPrice] appends. *)
Definition with_price (token : Token) (p : float) : Token :=
  mkToken (key token) (chainId token) (contract token) (symbol token) (name token)
    (Some p) (logo token).

Lemma find_app_filter (k k' : string) (existing : list Token) (last : Token) :
  key last = k ->
  List.find (fun t => String.eqb (key t) k')
    (List.filter (fun t => negb (String.eqb (key t) k)) existing ++ [last])
  = if String.eqb k k' then Some last
    else List.find (fun t => String.eqb (key t) k') existing.
Proof.
  intros Hlast. induction existing as [| t rest IH]; cbn [List.filter List.find app].
  - rewrite Hlast. destruct (String.eqb k k'); reflexivity.
  - destruct (String.eqb (key t) k) eqn:Etk; cbn [negb].
    + apply String.eqb_eq in Etk. rewrite IH.
      destruct (String.eqb k k') eqn:Ekk'; [reflexivity |].
      rewrite Etk, Ekk'. reflexivity.
    + cbn [app List.find].
      destruct (String.eqb (key t) k') eqn:Etk'.
      * apply String.eqb_eq in Etk'. subst k'. rewrite String.eqb_sym, Etk. reflexivity.
      * exact IH.
Qed.

(** X16.  After [setTokenPrice(token, price)] the store answers [getToken] for
    the key of the token with the token at the new price, and for any other
    key as before. *)
Theorem getToken_setTokenPrice (existing : list Token) (token : Token) (p : float)
    (k : string) :
  getToken (setTokenPrice existing token p) k
  = if String.eqb (key token) k then Some (with_price token p) else getToken existing k.
Proof.
  unfold getToken, setTokenPrice. apply find_app_filter. reflexivity.
Qed.

Lemma filter_other_keys (k : string) (existing : list Token) (last : Token) :
  key last = k ->
  List.filter (fun t => negb (String.eqb (key t) k))
    (List.filter (fun t => negb (String.eqb (key t) k)) existing ++ [last])
  = List.filter (fun t => negb (String.eqb (key t) k)) existing.
Proof.
  intros Hlast. rewrite List.filter_app. cbn [List.filter].
  rewrite Hlast, String.eqb_refl. cbn [negb]. rewrite app_nil_r.
  induction existing as [| t rest IH]; [reflexivity |].
  cbn [List.filter]. destruct (negb (String.eqb (key t) k)) eqn:E.
  - cbn [List.filter]. rewrite E, IH. reflexivity.
  - exact IH.
Qed.


(** X18.  The last price wins: two updates of one token in a row leave the store
    as the second one alone would. *)
Theorem setTokenPrice_last_wins (existing : list Token) (token token' : Token) (p p' : float) :
  key token' = key token ->
  setTokenPrice (setTokenPrice existing token p) token' p' = setTokenPrice existing token' p'.
Proof.
  intros Hk. unfold setTokenPrice at 1 3. rewrite Hk. f_equal.
  unfold setTokenPrice. apply filter_other_keys. reflexivity.
Qed.

(** ** [loadTokenMetadata] *)

(** The token [loadTokenMetadata] makes of an entry of the list. *)
Definition listed_token (session_chain : string) (t : TokenEntry) (symbol0 : Symbol) : Token :=
  mkToken (token_key session_chain (entry_account t) (metadata_name t))
    session_chain (entry_account t) symbol0 (metadata_name t) None (metadata_logo t).

(** An entry the loop does not pass over: of the chain of the session, with
    a supply of a precision other than zero and a symbol code that is not
    empty. *)
Definition eligible (session_chain : string) (t : TokenEntry) (precision : Z) : Prop :=
  id (chainConfig session_chain) = entry_chain t /\ entry_usable t = Some precision.

Lemma metadata_records_in (session_chain : string) (sysToken : Token)
    (entries : list TokenEntry) (records : list Token) (r : Token) :
  metadata_records session_chain sysToken entries = Some records ->
  (List.In r records <->
   exists t precision symbol0,
     List.In t entries /\ eligible session_chain t precision /\
     Symbol_from precision (entry_symbol t) = Some symbol0 /\
     Symbol_equals symbol0 (symbol sysToken) = false /\
     r = listed_token session_chain t symbol0).
Proof.
  revert records. induction entries as [| t rest IH]; intros records Hrec.
  - cbn in Hrec. injection Hrec as <-. split; [intros [] | intros (t & _ & _ & [] & _)].
  - cbn [metadata_records] in Hrec. unfold eligible.
    destruct (String.eqb (id (chainConfig session_chain)) (entry_chain t)) eqn:Echain.
    + apply String.eqb_eq in Echain.
      destruct (entry_usable t) as [precision |] eqn:Eusable.
      * destruct (Symbol_from precision (entry_symbol t)) as [symbol0 |] eqn:Esym;
          [| discriminate].
        rewrite String.eqb_refl, andb_true_r in Hrec.
        destruct (Symbol_equals symbol0 (symbol sysToken)) eqn:Eeq.
        -- rewrite (IH records Hrec). split.
           ++ intros (t' & p' & s' & Hin & Hel & Hrest). exists t', p', s'.
              split; [right; exact Hin | split; [exact Hel | exact Hrest]].
           ++ intros (t' & p' & s' & [<- | Hin] & [Hc Hus] & Hsf & Hne & Hr).
              ** rewrite Eusable in Hus. injection Hus as <-.
                 rewrite Esym in Hsf. injection Hsf as <-.
                 rewrite Eeq in Hne. discriminate.
              ** exists t', p', s'. unfold eligible. tauto.
        -- destruct (metadata_records session_chain sysToken rest) as [tail |] eqn:Etail;
             [| discriminate].
           cbn [option_map] in Hrec. injection Hrec as <-.
           cbn [List.In]. rewrite (IH tail eq_refl). split.
           ++ intros [<- | (t' & p' & s' & Hin & Hel & Hrest)].
              ** exists t, precision, symbol0. unfold eligible, listed_token.
                 split; [left; reflexivity |]. tauto.
              ** exists t', p', s'. split; [right; exact Hin | split; [exact Hel | exact Hrest]].
           ++ intros (t' & p' & s' & [<- | Hin] & [Hc Hus] & Hsf & Hne & Hr).
              ** rewrite Eusable in Hus. injection Hus as <-.
                 rewrite Esym in Hsf. injection Hsf as <-.
                 left. symmetry. exact Hr.
              ** right. exists t', p', s'. unfold eligible. tauto.
      * rewrite (IH records Hrec). split.
        -- intros (t' & p' & s' & Hin & Hrest). exists t', p', s'.
           split; [right; exact Hin | exact Hrest].
        -- intros (t' & p' & s' & [<- | Hin] & [Hc Hus] & Hrest).
           ++ rewrite Eusable in Hus. discriminate.
           ++ exists t', p', s'. unfold eligible. tauto.
    + rewrite (IH records Hrec). split.
      * intros (t' & p' & s' & Hin & Hrest). exists t', p', s'.
        split; [right; exact Hin | exact Hrest].
      * intros (t' & p' & s' & [<- | Hin] & [Hc Hus] & Hrest).
        -- rewrite Hc, String.eqb_refl in Echain. discriminate.
        -- exists t', p', s'. unfold eligible. tauto.
Qed.

(** X19.  What [loadTokenMetadata] publishes: the system token of the chain
    first, then exactly the tokens of the eligible entries whose symbol is
    not the symbol of the system token; an entry with the symbol of the
    system token is left out whatever its contract. *)
Theorem loadTokenMetadata_records (session_chain : string) (ticker : option float)
    (records : list Token) :
  loadTokenMetadata session_chain ticker = Some records ->
  let sysToken := createTokenFromChainId session_chain ticker in
  exists listed,
    records = sysToken :: listed /\
    forall r,
      List.In r listed <->
      exists t precision symbol0,
        List.In t AntelopeTokens /\ eligible session_chain t precision /\
        Symbol_from precision (entry_symbol t) = Some symbol0 /\
        Symbol_equals symbol0 (symbol sysToken) = false /\
        r = listed_token session_chain t symbol0.
Proof.
  unfold loadTokenMetadata. cbv zeta. intros Hload.
  destruct (metadata_records session_chain (createTokenFromChainId session_chain ticker)
              AntelopeTokens) as [listed |] eqn:Hrec; [| discriminate].
  injection Hload as <-. exists listed. split; [reflexivity |].
  intros r. apply (metadata_records_in _ _ _ _ r Hrec).
Qed.

Lemma metadata_records_none (session_chain : string) (sysToken : Token)
    (entries : list TokenEntry) :
  metadata_records session_chain sysToken entries = None <->
  exists t precision,
    List.In t entries /\ eligible session_chain t precision /\
    Symbol_from precision (entry_symbol t) = None.
Proof.
  induction entries as [| t rest IH].
  - cbn. split; [discriminate | intros (t & _ & [] & _)].
  - cbn [metadata_records]. unfold eligible in *.
    assert (Hrest : (exists t' p', List.In t' rest /\
                       (id (chainConfig session_chain) = entry_chain t' /\
                        entry_usable t' = Some p') /\
                       Symbol_from p' (entry_symbol t') = None) ->
                    exists t' p', List.In t' (t :: rest) /\
                       (id (chainConfig session_chain) = entry_chain t' /\
                        entry_usable t' = Some p') /\
                       Symbol_from p' (entry_symbol t') = None).
    { intros (t' & p' & Hin & H). exists t', p'. split; [right; exact Hin | exact H]. }
    destruct (String.eqb (id (chainConfig session_chain)) (entry_chain t)) eqn:Echain.
    + apply String.eqb_eq in Echain.
      destruct (entry_usable t) as [precision |] eqn:Eusable.
      * destruct (Symbol_from precision (entry_symbol t)) as [symbol0 |] eqn:Esym.
        -- rewrite String.eqb_refl, andb_true_r.
           assert (Hback : (exists t' p', List.In t' (t :: rest) /\
                       (id (chainConfig session_chain) = entry_chain t' /\
                        entry_usable t' = Some p') /\
                       Symbol_from p' (entry_symbol t') = None) ->
                     metadata_records session_chain sysToken rest = None).
           { intros (t' & p' & [<- | Hin] & [Hc Hus] & Hsf).
             - rewrite Eusable in Hus. injection Hus as <-. rewrite Esym in Hsf. discriminate.
             - apply IH. exists t', p'. tauto. }
           destruct (Symbol_equals symbol0 (symbol sysToken)).
           ++ split; [intros H; apply Hrest, IH, H | exact Hback].
           ++ destruct (metadata_records session_chain sysToken rest) eqn:Etail; cbn [option_map].
              ** split; [discriminate | intros H; specialize (Hback H); discriminate].
              ** split; [intros _; apply Hrest, IH; reflexivity | reflexivity].
        -- split; [| reflexivity]. intros _. exists t, precision.
           split; [left; reflexivity | tauto].
      * split; [intros H; apply Hrest, IH, H |].
        intros (t' & p' & [<- | Hin] & [Hc Hus] & Hsf).
        -- rewrite Eusable in Hus. discriminate.
        -- apply IH. exists t', p'. tauto.
    + split; [intros H; apply Hrest, IH, H |].
      intros (t' & p' & [<- | Hin] & [Hc Hus] & Hsf).
      * rewrite Hc, String.eqb_refl in Echain. discriminate.
      * apply IH. exists t', p'. tauto.
Qed.

(** X20.  [loadTokenMetadata] publishes nothing, not even the system token,
    exactly if the list holds an eligible entry whose precision and code
    [Asset.Symbol.from] rejects. *)
Theorem loadTokenMetadata_throws (session_chain : string) (ticker : option float) :
  loadTokenMetadata session_chain ticker = None <->
  exists t precision,
    List.In t AntelopeTokens /\ eligible session_chain t precision /\
    Symbol_from precision (entry_symbol t) = None.
Proof.
  unfold loadTokenMetadata. cbv zeta.
  rewrite <- (metadata_records_none session_chain
                (createTokenFromChainId session_chain ticker) AntelopeTokens).
  destruct (metadata_records _ _ _); cbn [option_map]; split; intros H;
    first [discriminate H | reflexivity].
Qed.

(** X21.  The key of the system token is the key [systemTokenKey] gives for the
    configuration of the chain, so that [getToken] on what
    [loadTokenMetadata] has published finds the system token under it. *)
Theorem getToken_systemTokenKey (session_chain : string) (ticker : option float)
    (records : list Token) :
  config_chainId (chainConfig session_chain) = session_chain ->
  loadTokenMetadata session_chain ticker = Some records ->
  getToken records (systemTokenKey (Some (chainConfig session_chain)))
  = Some (createTokenFromChainId session_chain ticker).
Proof.
  intros Hid Hload.
  unfold loadTokenMetadata in Hload. cbv zeta in Hload.
  destruct (metadata_records _ _ _) as [listed |]; [| discriminate].
  injection Hload as <-.
  unfold getToken, systemTokenKey. rewrite Hid.
  cbn [List.find createTokenFromChainId key].
  rewrite String.eqb_refl. reflexivity.
Qed.

End Facts.

(** ** A symbol library and a token list, for the examples *)

#[local] Instance toy_symbols : SymbolLibrary :=
  {| Symbol := Z * string;
     Symbol_from := fun precision code =>
       if ((0 <=? precision) && (precision <=? 18))%Z then Some (precision, code) else None;
     Symbol_equals := fun a b => (fst a =? fst b)%Z && String.eqb (snd a) (snd b);
     Symbol_name := snd |}.

#[local] Instance toy_tokens : TokenData :=
  {| chainConfig := fun chainId => mkChainConfig "eos" chainId "eosio.token" (4%Z, "EOS");
     AntelopeTokens :=
       [ mkEntry "eos" "tethertether" "USDT" (Some (mkSupply 4)) "Tether" None;
         mkEntry "eos" "fake.token" "EOS" (Some (mkSupply 4)) "Not EOS" None;
         mkEntry "wax" "eosio.token" "WAX" (Some (mkSupply 8)) "WAX" None;
         mkEntry "eos" "nft.token" "NFT" (Some (mkSupply 0)) "Whole" None ] |}.

Definition toy_token : Token := createTokenFromChainId "aca376f2" None.

Lemma setTokenPrice_last_wins_witness :
  setTokenPrice (setTokenPrice [toy_token] toy_token 1.5%float) toy_token 2%float
  = setTokenPrice [toy_token] toy_token 2%float.
Proof.
  apply (setTokenPrice_last_wins [toy_token] toy_token toy_token 1.5%float 2%float).
  reflexivity.
Defined.

Definition toy_records : list Token :=
  [ toy_token;
    mkToken "aca376f2-tethertether-tether" "aca376f2" "tethertether" (4%Z, "USDT") "Tether"
      None None ].

Lemma toy_records_loaded : loadTokenMetadata "aca376f2" None = Some toy_records.
Proof. reflexivity. Qed.

Lemma loadTokenMetadata_records_witness :
  let sysToken := createTokenFromChainId "aca376f2" None in
  exists listed,
    toy_records = sysToken :: listed /\
    forall r,
      List.In r listed <->
      exists t precision symbol0,
        List.In t AntelopeTokens /\ eligible "aca376f2" t precision /\
        Symbol_from precision (entry_symbol t) = Some symbol0 /\
        Symbol_equals symbol0 (symbol sysToken) = false /\
        r = listed_token "aca376f2" t symbol0.
Proof.
  apply (loadTokenMetadata_records "aca376f2" None toy_records). exact toy_records_loaded.
Defined.

Lemma getToken_systemTokenKey_witness :
  getToken toy_records (systemTokenKey (Some (chainConfig "aca376f2")))
  = Some (createTokenFromChainId "aca376f2" None).
Proof.
  apply (getToken_systemTokenKey "aca376f2" None toy_records).
  - reflexivity.
  - exact toy_records_loaded.
Defined.

End TokenStoreFacts.

(** * Properties of the token balances *)
Module TokenBalancesFacts.
Import TokenBalances.

Section Facts.
Context {TokensData : Type}.
Variable currency : TokensData -> string.

Lemma find_snoc (p : TokensData -> bool) (l : list TokensData) (x : TokensData) :
  List.find p (l ++ [x])
  = match List.find p l with
    | Some y => Some y
    | None => if p x then Some x else None
    end.
Proof.
  induction l as [| y l IH]; cbn [app List.find]; [reflexivity |].
  destruct (p y); [reflexivity | exact IH].
Qed.

Lemma fold_parse_lookup (tokens : list TokensData) (m : gmap string TokensData) (k : string) :
  k <> "__proto__" ->
  fold_left
    (fun tokensData token =>
       if String.eqb (currency token) "__proto__" then tokensData
       else <[currency token := token]> tokensData)
    tokens m !! k
  = match List.find (fun t => String.eqb (currency t) k) (rev tokens) with
    | Some t => Some t
    | None => m !! k
    end.
Proof using Type.
  intros Hk. revert m. induction tokens as [| t rest IH]; intros m; [reflexivity |].
  cbn [fold_left rev]. rewrite IH, find_snoc.
  destruct (List.find _ (rev rest)); [reflexivity |].
  destruct (String.eqb (currency t) k) eqn:Ek.
  - apply String.eqb_eq in Ek.
    destruct (String.eqb (currency t) "__proto__") eqn:Ep.
    + apply String.eqb_eq in Ep. congruence.
    + rewrite Ek. apply lookup_insert_eq.
  - destruct (String.eqb (currency t) "__proto__"); [reflexivity |].
    apply lookup_insert_ne. intros Heq. rewrite Heq, String.eqb_refl in Ek. discriminate.
Qed.

Lemma fold_parse_proto (tokens : list TokensData) (m : gmap string TokensData) :
  fold_left
    (fun tokensData token =>
       if String.eqb (currency token) "__proto__" then tokensData
       else <[currency token := token]> tokensData)
    tokens m !! "__proto__"
  = m !! "__proto__".
Proof using Type.
  revert m. induction tokens as [| t rest IH]; intros m; [reflexivity |].
  cbn [fold_left]. rewrite IH.
  destruct (String.eqb (currency t) "__proto__") eqn:Ep; [reflexivity |].
  apply lookup_insert_ne. intros Heq. rewrite Heq, String.eqb_refl in Ep. discriminate.
Qed.

(** X22.  The object [parseTokens] returns has, under a currency, the last token
    of the array with that currency, and no property for a currency that is
    not in the array; it never gets a property ["__proto__"]. *)
Theorem parseTokens_last_wins (tokens : list TokensData) (k : string) :
  parseTokens currency tokens !! k
  = if String.eqb k "__proto__" then None
    else List.find (fun t => String.eqb (currency t) k) (rev tokens).
Proof using Type.
  unfold parseTokens.
  destruct (String.eqb k "__proto__") eqn:Ek.
  - apply String.eqb_eq in Ek. subst k. rewrite fold_parse_proto. apply lookup_empty.
  - rewrite fold_parse_lookup.
    + destruct (List.find _ (rev tokens)); [reflexivity | apply lookup_empty].
    + intros ->. rewrite String.eqb_refl in Ek. discriminate.
Qed.

End Facts.

End TokenBalancesFacts.

(** * Properties of the template selection *)
Module RequestFacts.
Import Request.
Local Open Scope string_scope.

Lemma append_assoc (a b c : string) : (a +:+ b) +:+ c = a +:+ b +:+ c.
Proof.
  induction a as [| x a IH]; [reflexivity |].
  change (String x ((a +:+ b) +:+ c) = String x (a +:+ b +:+ c)). rewrite IH. reflexivity.
Qed.

(** Reading one escaped character back. *)
Definition hex_value (c : ascii) : option N :=
  let n := N_of_ascii c in
  if ((48 <=? n) && (n <=? 57))%N then Some (n - 48)%N
  else if ((97 <=? n) && (n <=? 102))%N then Some (n - 87)%N
  else None.

Definition unescape_head (s : string) : option (ascii * string) :=
  match s with
  | EmptyString => None
  | String c rest =>
      if Ascii.eqb c quote_char then None
      else if Ascii.eqb c backslash then
        match rest with
        | String e rest' =>
            if Ascii.eqb e "b" then Some (ascii_of_N 8, rest')
            else if Ascii.eqb e "t" then Some (ascii_of_N 9, rest')
            else if Ascii.eqb e "n" then Some (ascii_of_N 10, rest')
            else if Ascii.eqb e "f" then Some (ascii_of_N 12, rest')
            else if Ascii.eqb e "r" then Some (ascii_of_N 13, rest')
            else if Ascii.eqb e quote_char then Some (quote_char, rest')
            else if Ascii.eqb e backslash then Some (backslash, rest')
            else if Ascii.eqb e "u" then
              match rest' with
              | String _ (String _ (String h (String l rest''))) =>
                  match hex_value h, hex_value l with
                  | Some hv, Some lv => Some (ascii_of_N (16 * hv + lv), rest'')
                  | _, _ => None
                  end
              | _ => None
              end
            else None
        | EmptyString => None
        end
      else Some (c, rest)
  end.

Lemma unescape_escape_char (c : ascii) (rest : string) :
  unescape_head (escape_char c +:+ rest) = Some (c, rest).
Proof. destruct c as [[] [] [] [] [] [] [] []]; reflexivity. Qed.

(** An escaped string is read back from what follows it up to the closing
    quote. *)
Lemma escape_inj (s1 s2 r1 r2 : string) :
  escape s1 +:+ String quote_char r1 = escape s2 +:+ String quote_char r2 ->
  s1 = s2 /\ r1 = r2.
Proof.
  revert s2. induction s1 as [| c1 s1 IH]; intros [| c2 s2] Heq; cbn [escape] in Heq.
  - cbn in Heq. injection Heq as ->. split; reflexivity.
  - apply (f_equal unescape_head) in Heq.
    rewrite append_assoc, unescape_escape_char in Heq. discriminate.
  - apply (f_equal unescape_head) in Heq.
    rewrite append_assoc, unescape_escape_char in Heq. discriminate.
  - apply (f_equal unescape_head) in Heq.
    rewrite !append_assoc, !unescape_escape_char in Heq.
    injection Heq as -> Heq.
    destruct (IH s2 Heq) as [-> ->]. split; reflexivity.
Qed.

Lemma JSON_quote_inj (s1 s2 r1 r2 : string) :
  JSON_quote s1 +:+ r1 = JSON_quote s2 +:+ r2 -> s1 = s2 /\ r1 = r2.
Proof.
  unfold JSON_quote. cbn [String.append]. intros Heq. injection Heq as Heq.
  rewrite !append_assoc in Heq. cbn [String.append] in Heq.
  apply escape_inj. exact Heq.
Qed.

Lemma JSON_quote_head (s r : string) :
  exists t, JSON_quote s +:+ r = String quote_char t.
Proof. unfold JSON_quote. cbn [String.append]. eexists. reflexivity. Qed.

Lemma join_quoted_inj (l1 l2 : list string) :
  TokenKey.join "," (List.map JSON_quote l1) +:+ "]"
  = TokenKey.join "," (List.map JSON_quote l2) +:+ "]" ->
  l1 = l2.
Proof.
  revert l2. induction l1 as [| x1 l1 IH]; intros [| x2 l2] Heq.
  - reflexivity.
  - exfalso. cbn [List.map TokenKey.join] in Heq.
    destruct l2 as [| y2 l2].
    + destruct (JSON_quote_head x2 "]") as [t Ht]. cbn [List.map] in Heq.
      rewrite Ht in Heq. discriminate.
    + cbn [List.map] in Heq. rewrite append_assoc in Heq.
      destruct (JSON_quote_head x2
                  (("," +:+ TokenKey.join "," (JSON_quote y2 :: List.map JSON_quote l2)) +:+ "]"))
        as [t Ht].
      rewrite Ht in Heq. discriminate.
  - exfalso. cbn [List.map TokenKey.join] in Heq.
    destruct l1 as [| y1 l1].
    + destruct (JSON_quote_head x1 "]") as [t Ht]. cbn [List.map] in Heq.
      rewrite Ht in Heq. discriminate.
    + cbn [List.map] in Heq. rewrite append_assoc in Heq.
      destruct (JSON_quote_head x1
                  (("," +:+ TokenKey.join "," (JSON_quote y1 :: List.map JSON_quote l1)) +:+ "]"))
        as [t Ht].
      rewrite Ht in Heq. discriminate.
  - cbn [List.map] in Heq.
    destruct l1 as [| y1 l1]; destruct l2 as [| y2 l2]; cbn [List.map TokenKey.join] in Heq.
    + apply JSON_quote_inj in Heq as [-> _]. reflexivity.
    + rewrite append_assoc in Heq.
      apply JSON_quote_inj in Heq as [_ Heq]. discriminate.
    + rewrite append_assoc in Heq.
      apply JSON_quote_inj in Heq as [_ Heq]. discriminate.
    + rewrite !append_assoc in Heq.
      apply JSON_quote_inj in Heq as [-> Heq].
      cbn [String.append] in Heq. injection Heq as Heq.
      f_equal. apply IH. cbn [List.map]. exact Heq.
Qed.

(** Two arrays of strings with the same serialization are the same array. *)
Lemma JSON_stringify_inj (l1 l2 : list string) :
  JSON_stringify l1 = JSON_stringify l2 -> l1 = l2.
Proof.
  unfold JSON_stringify. cbn [String.append]. intros Heq. injection Heq as Heq.
  apply join_quoted_inj. exact Heq.
Qed.

(** The ways to cut a string in two. *)
Fixpoint cuts (t : string) : list (string * string) :=
  ("", t) ::
  match t with
  | EmptyString => []
  | String c rest => List.map (fun '(a, b) => (String c a, b)) (cuts rest)
  end.

Lemma cuts_complete (a b : string) : List.In (a, b) (cuts (a +:+ b)).
Proof.
  induction a as [| c a IH]; cbn [String.append].
  - destruct b; left; reflexivity.
  - cbn [cuts]. right. apply List.in_map_iff. exists (a, b). split; [reflexivity | exact IH].
Qed.

Lemma action_string_newaccount (a n : string) :
  a +:+ "::" +:+ n = "eosio::newaccount" <-> a = "eosio" /\ n = "newaccount".
Proof.
  split; [| intros [-> ->]; reflexivity].
  intros Heq. pose proof (cuts_complete a ("::" +:+ n)) as Hin.
  rewrite Heq in Hin. cbn in Hin.
  repeat (destruct Hin as [Hin | Hin]; [try discriminate Hin |]); try contradiction.
  injection Hin as Ha Hn.
  change ("" +:+ n) with n in Hn. subst a n. split; reflexivity.
Qed.

Lemma action_string_buyrambytes (a n : string) :
  a +:+ "::" +:+ n = "eosio::buyrambytes" <-> a = "eosio" /\ n = "buyrambytes".
Proof.
  split; [| intros [-> ->]; reflexivity].
  intros Heq. pose proof (cuts_complete a ("::" +:+ n)) as Hin.
  rewrite Heq in Hin. cbn in Hin.
  repeat (destruct Hin as [Hin | Hin]; [try discriminate Hin |]); try contradiction.
  injection Hin as Ha Hn.
  change ("" +:+ n) with n in Hn. subst a n. split; reflexivity.
Qed.

(** X23.  A transaction gets the template [newaccount] exactly if its actions are
    [eosio::newaccount] followed by [eosio::buyrambytes] and nothing else;
    every other transaction gets [default]. *)
Theorem currentTemplate_newaccount (actions : list Action) :
  (currentTemplate (Some actions) = Some "newaccount" <->
   actions = [mkAction "eosio" "newaccount"; mkAction "eosio" "buyrambytes"]) /\
  (currentTemplate (Some actions) = Some "newaccount" \/
   currentTemplate (Some actions) = Some "default").
Proof.
  unfold currentTemplate, templates. cbn [List.find template_actions template_name].
  set (strings := List.map (fun action => account action +:+ "::" +:+ name action) actions).
  destruct (String.eqb (JSON_stringify ["eosio::newaccount"; "eosio::buyrambytes"])
              (JSON_stringify strings)) eqn:E.
  - split; [| left; reflexivity].
    split; [intros _ | reflexivity].
    apply String.eqb_eq, JSON_stringify_inj in E. subst strings.
    destruct actions as [| [a1 n1] [| [a2 n2] [| x rest]]]; try discriminate E.
    cbn [List.map account name] in E. injection E as E1 E2.
    symmetry in E1, E2.
    apply action_string_newaccount in E1 as [-> ->].
    apply action_string_buyrambytes in E2 as [-> ->]. reflexivity.
  - split; [| right; reflexivity].
    split; [discriminate |].
    intros ->. subst strings. cbn in E. discriminate.
Qed.

End RequestFacts.
